(** * DBFZ Raid Enabler: the binary patching engine

    A shallow embedding of [src/core/patcher.py] (class [BinaryPatcher]) and of
    [BackupManager.detect_current_patch] from [src/file_manager/backup.py],
    followed by the properties of the patching engine.

    Conventions of the embedding.
    - A Python [bytes] / [bytearray] is a [list byte]; a Python [int] is a [Z].
    - A Python [str] is a [string]; only ASCII strings are covered (the
      patterns of the program are ASCII).
    - A [bytearray] mutated in place is threaded explicitly: a function that
      mutates its argument returns the new contents next to its result.
    - The file system is a finite map from paths to files; operations on it
      live in a state-and-exception monad [M].
    - Calls to [logger] are left out: they neither change control flow nor
      touch the buffer or the file. *)

From Stdlib Require Import ZArith Lia List.
From Stdlib.Strings Require Import String Ascii Byte.
From stdpp Require Import base option list strings gmap pretty sorting.

Local Open Scope Z_scope.
Local Open Scope nat_scope.

(** ** Exceptions and outcomes *)

Inductive exn : Type :=
  | ValueError            (* int(tok, 16) on a token that is no number *)
  | IndexError            (* exe_data[k] out of range *)
  | OverflowError         (* int.to_bytes on an int that does not fit *)
  | OSError               (* read_bytes / write_bytes failing *)
  | PatchError (msg : string).
  (* [msg] is the fixed part of the message; the text of the error that was
     caught, which the source appends, is left out. *)

Inductive outcome (A : Type) : Type :=
  | Returned (a : A)
  | Raised (e : exn).
Arguments Returned {A} a.
Arguments Raised {A} e.

(** ** Bytes and integers *)

Definition byte_val (b : byte) : Z := Z.of_N (Byte.to_N b).

Definition byte_of_Z (z : Z) : byte :=
  default x00 (Byte.of_N (Z.to_N (z mod 256))).

(** [n.to_bytes(4, byteorder='little')] *)
Definition to_bytes4_little (n : Z) : outcome (list byte) :=
  if (n <? 0)%Z then Raised OverflowError
  else if (2 ^ 32 <=? n)%Z then Raised OverflowError
  else Returned [byte_of_Z n; byte_of_Z (n / 2 ^ 8);
                 byte_of_Z (n / 2 ^ 16); byte_of_Z (n / 2 ^ 24)].

(** [int.from_bytes(bs, byteorder='little')] *)
Fixpoint from_bytes_little (bs : list byte) : Z :=
  match bs with
  | [] => 0
  | b :: rest => byte_val b + 256 * from_bytes_little rest
  end%Z.

(** ** Python built-ins on strings *)

(** [s.split(' ')]: split at every single space; never returns the empty
    list, and two adjacent spaces give an empty token. *)
Fixpoint split_space (s : string) : list string :=
  match s with
  | EmptyString => [EmptyString]
  | String c rest =>
      if Ascii.eqb c " " then EmptyString :: split_space rest
      else match split_space rest with
           | tok :: toks => String c tok :: toks
           | [] => [String c EmptyString]
           end
  end.

(** The characters [int] strips from both ends of an ASCII string. *)
Definition is_py_space (c : ascii) : bool :=
  let n := nat_of_ascii c in
  ((9 <=? n) && (n <=? 13)) || (n =? 32).

Fixpoint lstrip (s : list ascii) : list ascii :=
  match s with
  | c :: rest => if is_py_space c then lstrip rest else s
  | [] => []
  end.

Definition strip (s : list ascii) : list ascii :=
  rev (lstrip (rev (lstrip s))).

Definition hex_digit (c : ascii) : option Z :=
  let n := Z.of_nat (nat_of_ascii c) in
  if ((48 <=? n) && (n <=? 57))%Z then Some (n - 48)%Z
  else if ((65 <=? n) && (n <=? 70))%Z then Some (n - 55)%Z
  else if ((97 <=? n) && (n <=? 102))%Z then Some (n - 87)%Z
  else None.

(** One or more hexadecimal digits; an underscore is accepted only between
    two digits. [prev_digit] tells whether the previous character was a
    digit. *)
Fixpoint hex_digits (acc : Z) (prev_digit : bool) (s : list ascii) : option Z :=
  match s with
  | [] => if prev_digit then Some acc else None
  | c :: rest =>
      if Ascii.eqb c "_" then
        if prev_digit then hex_digits acc false rest else None
      else match hex_digit c with
           | Some d => hex_digits (16 * acc + d)%Z true rest
           | None => None
           end
  end.

(** [int(s, 16)] on an ASCII string: surrounding white space, an optional
    sign, an optional [0x] / [0X] prefix (one underscore may follow it), then
    the digits. [None] stands for [ValueError]. *)
Definition int16 (s : string) : option Z :=
  let s1 := strip (list_ascii_of_string s) in
  let '(sign, s2) :=
    match s1 with
    | c :: rest =>
        if Ascii.eqb c "+" then (1%Z, rest)
        else if Ascii.eqb c "-" then ((-1)%Z, rest)
        else (1%Z, s1)
    | [] => (1%Z, s1)
    end in
  let s3 :=
    match s2 with
    | c0 :: cx :: rest =>
        if Ascii.eqb c0 "0" && (Ascii.eqb cx "x" || Ascii.eqb cx "X") then
          match rest with
          | u :: rest' => if Ascii.eqb u "_" then rest' else rest
          | [] => rest
          end
        else s2
    | _ => s2
    end in
  (λ v, sign * v)%Z <$> hex_digits 0 false s3.

(** [data[lo:hi] = new] on a bytearray, for [0 <= lo] and [0 <= hi]: both
    bounds are clamped to the length, the slice is removed and [new] is put
    in its place whatever its length, so the buffer may shrink or grow. *)
Definition slice_assign (data : list byte) (lo hi : nat) (new : list byte)
  : list byte :=
  take lo data ++ new ++ drop (lo `max` hi) data.

(** [data[lo:hi]] for [0 <= lo <= hi]. *)
Definition slice (data : list byte) (lo hi : nat) : list byte :=
  take (hi - lo) (drop lo data).

(** [needle in hay] on bytes. *)
Fixpoint bytes_prefix (needle hay : list byte) : bool :=
  match needle, hay with
  | [], _ => true
  | _ :: _, [] => false
  | a :: needle', b :: hay' => Byte.eqb a b && bytes_prefix needle' hay'
  end.

Fixpoint bytes_in (needle hay : list byte) : bool :=
  bytes_prefix needle hay ||
  match hay with
  | [] => false
  | _ :: hay' => bytes_in needle hay'
  end.

(** ** [BinaryPatcher.replace_pattern] *)

(** The inner loop [for j, pattern_byte in enumerate(pattern_bytes)], entered
    at index [j] with the tokens still to compare; the result is the final
    value of [found]. *)
Fixpoint match_tokens (exe_data : list byte) (i j : nat)
    (pattern_bytes : list string) : outcome bool :=
  match pattern_bytes with
  | [] => Returned true
  | pattern_byte :: rest =>
      if String.eqb pattern_byte "??" then match_tokens exe_data i (S j) rest
      else match int16 pattern_byte with
           | None => Raised ValueError
           | Some v =>
               match exe_data !! (i + j) with
               | None => Raised IndexError
               | Some b =>
                   if (v =? byte_val b)%Z
                   then match_tokens exe_data i (S j) rest
                   else Returned false
               end
           end
  end.

(** The outer loop [for i in range(...)], at index [i] with [count]
    iterations left. Returns the offset (or -1) and the buffer as the call
    leaves it. *)
Fixpoint scan_from (exe_data : list byte) (pattern_bytes : list string)
    (new_bytes : list byte) (i count : nat) : outcome Z * list byte :=
  match count with
  | O => (Returned (-1)%Z, exe_data)
  | S count' =>
      match match_tokens exe_data i 0 pattern_bytes with
      | Raised e => (Raised e, exe_data)
      | Returned true =>
          (Returned (Z.of_nat i),
           slice_assign exe_data i (i + length new_bytes) new_bytes)
      | Returned false =>
          scan_from exe_data pattern_bytes new_bytes (S i) count'
      end
  end.

Definition replace_pattern (exe_data : list byte) (pattern : string)
    (new_bytes : list byte) : outcome Z * list byte :=
  let pattern_bytes := split_space pattern in
  let pattern_len := length pattern_bytes in
  (* range(n) is empty for n <= 0: the subtraction on nat truncates *)
  scan_from exe_data pattern_bytes new_bytes 0
            (length exe_data + 1 - pattern_len).

(** ** [BinaryPatcher.create_raid_patches] *)

(** A patch is [(pattern, replacement)]; the patch set is the dict literal of
    the source, kept as an association list in insertion order, the order in
    which [patches.items()] is walked. *)
Definition patch : Type := string * list byte.

Definition get_pattern : string := "8B 81 C4 53 1D 00".
Definition set_pattern : string :=
  "66 0F 73 DA 08 66 41 0F 7E 50 04 F2 0F 11 4C".
Definition status_pattern : string := "83 78 10 02 74 10".

Definition get_replacement (raid_bytes : list byte) : list byte :=
  [xb8] ++ raid_bytes ++ [x90].
Definition set_replacement (raid_bytes : list byte) : list byte :=
  [x41; xc7; x40; x04] ++ raid_bytes ++ [x90; x90; x90].
Definition status_replacement : list byte := [x39; xc0; x90; x90].

Definition create_raid_patches (raid_index : Z)
  : outcome (list (string * patch)) :=
  match to_bytes4_little raid_index with
  | Raised e => Raised e
  | Returned raid_bytes =>
      Returned [("get_raid"%string, (get_pattern, get_replacement raid_bytes));
                ("set_raid"%string, (set_pattern, set_replacement raid_bytes));
                ("raid_status"%string, (status_pattern, status_replacement))]
  end.

(** ** The file system and the monad of file operations *)

(** What a path leads to: a file, with its contents and two permission
    bits, or an entry that the process may not examine, on which [os.stat]
    fails with [PermissionError]. Such an entry can be neither read nor
    written.

    A read or a write fails when the file cannot be opened, and then
    nothing has happened to it. A write that fails after the file was
    opened (disk full, device error) leaves a truncated file in Python; no
    state of this model leads there, so no theorem below describes the file
    after such a failure. Directories are not among the entries, and
    two different paths lead to two different entries. *)
Inductive file : Type :=
  | mk_file (data : list byte) (r w : bool)
  | no_access.

Definition content (f : file) : list byte :=
  match f with mk_file data _ _ => data | no_access => [] end.

Definition readable (f : file) : bool :=
  match f with mk_file _ r _ => r | no_access => false end.

Definition writable (f : file) : bool :=
  match f with mk_file _ _ w => w | no_access => false end.

Definition M (A : Type) : Type :=
  gmap string file → outcome A * gmap string file.

#[export] Instance M_ret : MRet M := λ A a σ, (Returned a, σ).

#[export] Instance M_bind : MBind M := λ A B k m σ,
  match m σ with
  | (Returned a, σ') => k a σ'
  | (Raised e, σ') => (Raised e, σ')
  end.

Definition raise {A : Type} (e : exn) : M A := λ σ, (Raised e, σ).

Definition lift {A : Type} (o : outcome A) : M A := λ σ, (o, σ).

(** [try: body / except Exception as e: handler(e)] *)
Definition try_except {A : Type} (body : M A) (handler : exn → M A) : M A :=
  λ σ, match body σ with
       | (Returned a, σ') => (Returned a, σ')
       | (Raised e, σ') => handler e σ'
       end.

(** [path.exists()]: [False] for a missing path and [True] for a file. An
    [os.stat] that fails for another reason than a missing path is raised
    again, not turned into [False]. *)
Definition path_exists (path : string) : M bool :=
  λ σ, match σ !! path with
       | None => (Returned false, σ)
       | Some no_access => (Raised OSError, σ)
       | Some (mk_file _ _ _) => (Returned true, σ)
       end.

(** [path.read_bytes()] *)
Definition read_bytes (path : string) : M (list byte) :=
  λ σ, match σ !! path with
       | Some f => if readable f then (Returned (content f), σ)
                   else (Raised OSError, σ)
       | None => (Raised OSError, σ)
       end.

(** [path.write_bytes(data)]: fails when the file cannot be opened for
    writing, before anything is written. *)
Definition write_bytes (path : string) (data : list byte) : M unit :=
  λ σ, match σ !! path with
       | Some f =>
           if writable f
           then (Returned tt, <[path := mk_file data (readable f) true]> σ)
           else (Raised OSError, σ)
       | None => (Returned tt, <[path := mk_file data true true]> σ)
       end.

(** ** [BinaryPatcher.patch_executable] *)

Record results : Type := mk_results {
  success : bool;
  offsets : gmap string Z;
  errors : list string
}.

Definition init_results : results := mk_results true ∅ [].

(** One turn of the loop [for patch_name, (pattern, replacement) in ...]. *)
Definition record_offset (patch_name : string) (offset : Z) (res : results)
  : results :=
  if (offset <? 0)%Z then
    mk_results false (offsets res)
               (errors res ++ [(patch_name +:+ " pattern scan failed")%string])
  else
    mk_results (success res) (<[patch_name := offset]> (offsets res))
               (errors res).

Fixpoint apply_patches (patches : list (string * patch))
    (exe_data : list byte) (res : results) : outcome (list byte * results) :=
  match patches with
  | [] => Returned (exe_data, res)
  | (patch_name, (pattern, replacement)) :: rest =>
      match replace_pattern exe_data pattern replacement with
      | (Raised e, _) => Raised e
      | (Returned offset, exe_data') =>
          apply_patches rest exe_data' (record_offset patch_name offset res)
      end
  end.

Definition patch_executable (exe_path : string) (raid_index : Z) : M results :=
  exe_data ← try_except (read_bytes exe_path)
                (λ _, raise (PatchError "Cannot read executable"));
  patches ← lift (create_raid_patches raid_index);
  '(patched, res) ← lift (apply_patches patches exe_data init_results);
  if success res then
    try_except (write_bytes exe_path patched)
      (λ _, raise (PatchError "Cannot write executable"));;
    mret res
  else mret res.

(** ** [BinaryPatcher.verify_patch] *)

Definition verify_patch (exe_path : string) (raid_index : Z) : M bool :=
  try_except
    (exe_data ← read_bytes exe_path;
     raid_bytes ← lift (to_bytes4_little raid_index);
     let search_pattern := [xb8] ++ raid_bytes ++ [x90] in
     mret (bytes_in search_pattern exe_data))
    (λ _, mret false).

(** ** [BackupManager.detect_current_patch] *)

(** The body of the loop at index [i]: [Some v] when it returns [v], [None]
    when it falls through to the next index. *)
Definition detect_at (exe_data : list byte) (i : nat) : outcome (option Z) :=
  match exe_data !! i with
  | None => Raised IndexError
  | Some b0 =>
      if Byte.eqb b0 xb8 then
        match exe_data !! (i + 5) with
        | None => Raised IndexError
        | Some b5 =>
            if Byte.eqb b5 x90 then
              let raid_bytes := slice exe_data (i + 1) (i + 5) in
              let raid_index := from_bytes_little raid_bytes in
              if ((1 <=? raid_index) && (raid_index <=? 38))%Z
              then Returned (Some raid_index)
              else Returned None
            else Returned None
        end
      else Returned None
  end.

Fixpoint detect_scan (exe_data : list byte) (i count : nat)
  : outcome (option Z) :=
  match count with
  | O => Returned None
  | S count' =>
      match detect_at exe_data i with
      | Raised e => Raised e
      | Returned (Some v) => Returned (Some v)
      | Returned None => detect_scan exe_data (S i) count'
      end
  end.

Definition detect_current_patch (patched_exe : string) : M (option Z) :=
  present ← path_exists patched_exe;
  if negb present then mret None
  else
    try_except
      (exe_data ← read_bytes patched_exe;
       lift (detect_scan exe_data 0 (length exe_data - 5)))
      (λ _, mret None).

(** ** The rest of [BackupManager] *)

(** [BackupError] is not one of the exceptions of [exn]: a method that can
    raise it returns [Failed msg] in its place, and its callers pass it on
    by hand. As for [PatchError], [msg] is the fixed part of the message. *)
Inductive backup_result (A : Type) : Type :=
  | Done (a : A)
  | Failed (msg : string).
Arguments Done {A} a.
Arguments Failed {A} msg.

(** [path.unlink()]: fails on a missing file and, as Windows has it, on a
    read-only one; a file held open by another process is outside the
    model. *)
Definition unlink (path : string) : M unit :=
  λ σ, match σ !! path with
       | Some f => if writable f then (Returned tt, delete path σ)
                   else (Raised OSError, σ)
       | None => (Raised OSError, σ)
       end.

(** [shutil.copy2(src, dst)] for two file paths: the contents and the
    permission bits of [src] go to [dst]. It fails when [src] cannot be
    opened for reading, when [src] and [dst] are the same file, and when
    [dst] exists and cannot be opened for writing; each of these failures
    comes before anything is written. *)
Definition copy2 (src dst : string) : M string :=
  λ σ, match σ !! src with
       | None => (Raised OSError, σ)
       | Some f =>
           if bool_decide (src = dst) then (Raised OSError, σ)
           else if negb (readable f) then (Raised OSError, σ)
           else
             match σ !! dst with
             | Some g =>
                 if writable g
                 then (Returned dst, <[dst := f]> σ)
                 else (Raised OSError, σ)
             | None => (Returned dst, <[dst := f]> σ)
             end
       end.

Definition verify_clean_exe (clean_exe : string) : M (backup_result bool) :=
  present ← path_exists clean_exe;
  if negb present
  then mret (Failed "Original game executable not found")
  else mret (Done true).

Definition create_or_update_patched_exe (clean_exe patched_exe : string)
  : M (backup_result string) :=
  verified ← verify_clean_exe clean_exe;
  match verified with
  | Failed msg => mret (Failed msg)
  | Done _ =>
      present ← path_exists patched_exe;
      (if (present : bool)
       then try_except (unlink patched_exe) (λ _, mret tt)
       else mret tt);;
      try_except
        (copy2 clean_exe patched_exe;; mret (Done patched_exe))
        (λ _, mret (Failed "Failed to create patched exe"))
  end.

Record cleanup_results : Type := mk_cleanup {
  patched_exe_removed : bool;
  shortcuts_removed : Z;
  cleanup_errors : list string
}.

(** The loop [for shortcut in game_root.glob(...)] over the paths the glob
    has found. [path_name] stands for [Path.name]. *)
Fixpoint remove_shortcuts (path_name : string → string)
    (shortcuts : list string) (res : cleanup_results) : M cleanup_results :=
  match shortcuts with
  | [] => mret res
  | shortcut :: rest =>
      res' ← try_except
               (unlink shortcut;;
                mret (mk_cleanup (patched_exe_removed res)
                        (shortcuts_removed res + 1)%Z (cleanup_errors res)))
               (λ _, mret (mk_cleanup (patched_exe_removed res)
                             (shortcuts_removed res)
                             (cleanup_errors res ++
                                [("Failed to remove shortcut "
                                  +:+ path_name shortcut)%string])));
      remove_shortcuts path_name rest res'
  end.

(** [glob game_root] stands for [game_root.glob("DBFZ Raid *.lnk")]: the
    directory is listed once, when the loop starts, and the listing may
    fail. The error strings keep their fixed part. *)
Definition cleanup_all
    (glob : string → gmap string file → outcome (list string))
    (path_name : string → string)
    (patched_exe game_root : string) : M cleanup_results :=
  let results := mk_cleanup false 0 [] in
  present ← path_exists patched_exe;
  results ←
    (if (present : bool) then
       try_except
         (unlink patched_exe;;
          mret (mk_cleanup true (shortcuts_removed results)
                  (cleanup_errors results)))
         (λ _, mret (mk_cleanup (patched_exe_removed results)
                       (shortcuts_removed results)
                       (cleanup_errors results ++
                          ["Failed to remove patched exe"%string])))
     else mret results);
  try_except
    (shortcuts ← (λ σ, (glob game_root σ, σ));
     remove_shortcuts path_name shortcuts results)
    (λ _, mret (mk_cleanup (patched_exe_removed results)
                  (shortcuts_removed results)
                  (cleanup_errors results ++
                     ["Error scanning for shortcuts in game folder"%string]))).

(** The file system after an attempt to delete [path] whose failure is
    ignored: the file is gone when it was there and could be deleted. *)
Definition without_file (path : string) (σ : gmap string file)
  : gmap string file :=
  match σ !! path with
  | Some g => if writable g then delete path σ else σ
  | None => σ
  end.

(** ** [core/raid_data.py] *)

(** The dict literal, in the order it is written; its keys are distinct. *)
Definition RAID_BOSSES : list (Z * string) :=
  [(1, "The Emperor Strikes Back");
   (2, "The Cell Games Main Event");
   (3, "The Might of a Majin");
   (4, "Living Legend of Universe 6");
   (5, "Universe 7's God of Destruction");
   (6, "Ominous Android");
   (7, "Leading the Pack");
   (8, "Heated, Furious, Ultimate Battle");
   (9, "Father of Goku");
   (10, "Future Freedom Fighters");
   (11, "Foes from a Fearsome Future");
   (12, "Pushing Past the Limits");
   (13, "Savage Saiyan Showdown");
   (14, "Android Assault");
   (15, "Cooler's Revenge");
   (16, "Beyond the Gods");
   (17, "Videl's Training");
   (18, "Goku Gauntlet");
   (19, "From the Depths of Hell");
   (20, "The Ultimate Fusion");
   (21, "Power Incarnate");
   (22, "Defiant in the Face of Despair");
   (23, "A God in Mortal Form");
   (24, "Fusion is Child's Play!");
   (25, "Defenders of the Future");
   (26, "Warm-Hearted Warrior");
   (27, "The Best of Universe 7");
   (28, "A Once Fearsome Foe");
   (29, "Float Like a Crane, Sting Like a... Turtle?");
   (30, "Earth's Mightiest");
   (31, "The Power of a God");
   (32, "First in Female Fusion");
   (33, "God Among Gods");
   (34, "The Greatest Kamehameha");
   (35, "Facing the Fusions");
   (36, "Trouble with a Tuffle");
   (37, "Elegant Androids");
   (38, "Ultimate Zenkai Battle")]%Z%string.

(** [d.get(key)] on a dict written as its list of items. *)
Fixpoint dict_get (d : list (Z * string)) (key : Z) : option string :=
  match d with
  | [] => None
  | (k, v) :: rest => if (k =? key)%Z then Some v else dict_get rest key
  end.

(** [f"Unknown Raid {raid_index}"] is the default of the lookup. *)
Definition get_raid_name (raid_index : Z) : string :=
  default ("Unknown Raid " +:+ pretty raid_index)%string
          (dict_get RAID_BOSSES raid_index).

(** The order of Python on [(int, str)] tuples. *)
Definition item_le (a b : Z * string) : Prop :=
  (a.1 < b.1)%Z ∨ (a.1 = b.1 ∧ String.leb a.2 b.2 = true).

#[export] Instance item_le_dec a b : Decision (item_le a b).
Proof. unfold item_le. apply _. Defined.

(** [sorted(RAID_BOSSES.items())] *)
Definition get_all_raids : list (Z * string) :=
  merge_sort item_le RAID_BOSSES.

(** [raid_index in RAID_BOSSES] *)
Definition is_valid_raid_index (raid_index : Z) : bool :=
  bool_decide (is_Some (dict_get RAID_BOSSES raid_index)).

(** ** Sample data *)

(** The three signatures one after the other: the smallest image on which
    every patch matches. *)
Definition clean_image : list byte :=
  [x8b; x81; xc4; x53; x1d; x00;
   x66; x0f; x73; xda; x08; x66; x41; x0f; x7e; x50; x04; xf2; x0f; x11; x4c;
   x83; x78; x10; x02; x74; x10].

Definition one_file (data : list byte) : gmap string file :=
  {[ "game.exe"%string := mk_file data true true ]}.

(** ** Vocabulary of the specification *)

(** A token of a pattern is a matcher when it is the wildcard or a number
    that [int(tok, 16)] reads. *)
Definition well_formed_matcher (tok : string) : Prop :=
  tok = "??"%string ∨ is_Some (int16 tok).

(** The wildcard accepts every byte; an exact matcher accepts its value. *)
Definition matcher_accepts (tok : string) (b : byte) : Prop :=
  tok = "??"%string ∨ int16 tok = Some (byte_val b).

(** Every matcher of the pattern accepts the byte it faces in the window
    that starts at offset [i]. *)
Definition matches_at (B : list byte) (toks : list string) (i : nat) : Prop :=
  ∀ j tok, toks !! j = Some tok →
    ∃ b, B !! (i + j) = Some b ∧ matcher_accepts tok b.

(** No matcher of the pattern accepts the byte [b]. *)
Definition avoids (toks : list string) (b : byte) : Prop :=
  Forall (λ tok, ¬ matcher_accepts tok b) toks.

(** An image that has lost the [set_raid] signature. *)
Definition stale_image : list byte :=
  [x8b; x81; xc4; x53; x1d; x00; x83; x78; x10; x02; x74; x10].

(** An image with a stray B8 07 00 00 00 90 ahead of the signatures. *)
Definition decoy_image : list byte :=
  [xb8; x07; x00; x00; x00; x90] ++ clean_image.

(** An image that holds every signature twice. *)
Definition double_image : list byte := clean_image ++ clean_image.

(** The result accounts for a patch: it has a matched offset under the
    patch's name, or the patch's error string in the error list. *)
Definition reported (patch_name : string) (res : results) : Prop :=
  (∃ offset, (0 ≤ offset)%Z ∧ offsets res !! patch_name = Some offset)
  ∨ (patch_name +:+ " pattern scan failed")%string ∈ errors res.

(** [needle] occurs in [hay] at offset [i]. *)
Definition occurs_at (needle hay : list byte) (i : nat) : Prop :=
  ∀ k b, needle !! k = Some b → hay !! (i + k) = Some b.

(** [needle] is a contiguous sub-sequence of [hay]. *)
Definition contiguous_in (needle hay : list byte) : Prop :=
  ∃ before after, hay = before ++ needle ++ after.

(** The three replacements of one run, one after the other on the same
    buffer, and the result record they leave. *)
Definition three_patches (raid_bytes B : list byte)
    (o1 o2 o3 : Z) (B1 B2 B3 : list byte) : Prop :=
  replace_pattern B get_pattern (get_replacement raid_bytes)
    = (Returned o1, B1)
  ∧ replace_pattern B1 set_pattern (set_replacement raid_bytes)
    = (Returned o2, B2)
  ∧ replace_pattern B2 status_pattern status_replacement
    = (Returned o3, B3).

Definition three_results (o1 o2 o3 : Z) : results :=
  record_offset "raid_status" o3
    (record_offset "set_raid" o2
       (record_offset "get_raid" o1 init_results)).

(** A six-byte segment that starts with B8 and ends with 90: the shape of
    a [get_raid] patch site. *)
Definition is_site (seg : list byte) : Prop :=
  length seg = 6 ∧ seg !! 0 = Some xb8 ∧ seg !! 5 = Some x90.

(** [o] is what a leftmost-first scan of [B] for the pattern reports: the
    smallest matching offset, or -1 when no offset matches. *)
Definition leftmost_match (B : list byte) (toks : list string) (o : Z)
  : Prop :=
  (o = (-1)%Z ∧ ∀ i, ¬ matches_at B toks i)
  ∨ (∃ i, o = Z.of_nat i ∧ matches_at B toks i
          ∧ ∀ k, k < i → ¬ matches_at B toks k).

(** The six bytes at offset [i] are B8, four bytes that decode to [v], and
    90, and [v] is one of 1..38: the window the detector looks for. *)
Definition window_at (B : list byte) (i : nat) (v : Z) : Prop :=
  B !! i = Some xb8 ∧ B !! (i + 5) = Some x90
  ∧ from_bytes_little (slice B (i + 1) (i + 5)) = v
  ∧ (1 ≤ v ≤ 38)%Z.

(** Every byte that a matcher of [toks1] accepts is accepted by no matcher
    of [toks2]. *)
Definition patterns_apart (toks1 toks2 : list string) : Prop :=
  ∀ k tok b, toks1 !! k = Some tok → matcher_accepts tok b → avoids toks2 b.

(** The signature occurs somewhere in the buffer. *)
Definition signature_in (B : list byte) (pattern : string) : Prop :=
  ∃ i, matches_at B (split_space pattern) i.

(** Offset [k] lies in the [n] bytes written at the reported offset [o];
    no offset does when [o] is -1. *)
Definition in_region (o : Z) (n : nat) (k : nat) : Prop :=
  (0 ≤ o ∧ o ≤ Z.of_nat k < o + Z.of_nat n)%Z.

(** Decides [Forall well_formed_matcher] on a literal pattern. *)
Ltac all_matchers :=
  simpl;
  repeat (constructor 2; [first [by left | right; vm_compute; eauto]|]);
  constructor 1.

(** * Properties *)

Example int16_samples :
  map int16 ["8B"; "0x8B"; "8_B"; "_8"; "0x_8"; "8_"; "-8"; "100"; ""; "??";
             "0x"; "0X1f"; "1__0"; "0_x8"; "+0x8"]%string
  = [Some 139; Some 139; Some 139; None; Some 8; None; Some (-8); Some 256;
     None; None; None; Some 31; None; None; Some 8]%Z.
Proof. reflexivity. Qed.

Example split_space_samples :
  map split_space ["a  b"; ""; " a "; "8B 81"]%string
  = [["a"; ""; "b"]; [""]; [""; "a"; ""]; ["8B"; "81"]]%string.
Proof. reflexivity. Qed.

Example replace_pattern_sample :
  replace_pattern [x01; x8b; x81; xc4; x53; x1d; x00; x02] "8B ?? C4"
                  [xb8; x05]
  = (Returned 1%Z, [x01; xb8; x05; xc4; x53; x1d; x00; x02]).
Proof. reflexivity. Qed.

Example patch_sample :
  fst (patch_executable "game.exe" 5 (one_file clean_image))
  = Returned (mk_results true
       (<["raid_status"%string := 21%Z]> (<["set_raid"%string := 6%Z]>
          (<["get_raid"%string := 0%Z]> ∅))) []).
Proof. vm_compute. reflexivity. Qed.

(** ** Slice assignment *)

Section slice_assign_facts.
Context (data new : list byte) (i : nat).
Hypothesis Hi : i ≤ length data.

Lemma slice_assign_length :
  length (slice_assign data i (i + length new) new)
  = (i + length new) `max` length data.
Proof.
  unfold slice_assign.
  rewrite !length_app, length_take, length_drop. lia.
Qed.

Lemma slice_assign_lookup_before k :
  k < i → slice_assign data i (i + length new) new !! k = data !! k.
Proof.
  intros Hk. unfold slice_assign.
  rewrite lookup_app_l by (rewrite length_take; lia).
  by apply lookup_take_lt.
Qed.

Lemma slice_assign_lookup_new k :
  k < length new →
  slice_assign data i (i + length new) new !! (i + k) = new !! k.
Proof.
  intros Hk. unfold slice_assign.
  rewrite lookup_app_r by (rewrite length_take; lia).
  rewrite length_take_le by lia.
  rewrite lookup_app_l by lia. f_equal. lia.
Qed.

Lemma slice_assign_lookup_after k :
  i + length new ≤ k →
  slice_assign data i (i + length new) new !! k = data !! k.
Proof.
  intros Hk. unfold slice_assign.
  rewrite lookup_app_r by (rewrite length_take; lia).
  rewrite length_take_le by lia.
  rewrite lookup_app_r by lia.
  rewrite lookup_drop. f_equal. lia.
Qed.
End slice_assign_facts.

(** ** The scan of [replace_pattern] *)

Lemma wildcard_eqb tok : String.eqb tok "??" = true ↔ tok = "??"%string.
Proof. apply String.eqb_eq. Qed.

Lemma wildcard_accepts_every_byte b : matcher_accepts "??" b.
Proof. by left. Qed.

(** On matchers facing bytes of the buffer the inner loop returns, and it
    returns [true] exactly when every matcher accepts its byte. *)
Lemma match_tokens_spec B i toks :
  ∀ j, Forall well_formed_matcher toks →
    i + j + length toks ≤ length B →
    ∃ found, match_tokens B i j toks = Returned found ∧
      (found = true ↔
       ∀ k tok, toks !! k = Some tok →
         ∃ b, B !! (i + (j + k)) = Some b ∧ matcher_accepts tok b).
Proof.
  induction toks as [|tok toks IH]; intros j Hwf Hlen; simpl in *.
  - exists true. split; [done|]. split; [|done]. intros _ k t Hk. done.
  - inversion Hwf as [|? ? Htok Hrest]; subst.
    destruct (lookup_lt_is_Some_2 B (i + j)) as [b Hb]; [lia|].
    destruct (IH (S j) Hrest) as (found & Hrun & Hfound); [lia|].
    destruct (String.eqb tok "??") eqn:Hwild.
    + exists found. split; [done|]. rewrite Hfound. split.
      * intros H [|k] t Hk; simpl in Hk.
        -- injection Hk as <-. exists b. rewrite Nat.add_0_r.
           split; [done|]. left. by apply wildcard_eqb.
        -- replace (j + S k) with (S j + k) by lia. by apply H.
      * intros H k t Hk. replace (S j + k) with (j + S k) by lia.
        by apply H.
    + destruct Htok as [->|[v Hv]]; [done|]. rewrite Hv, Hb.
      destruct (v =? byte_val b)%Z eqn:Hcmp.
      * apply Z.eqb_eq in Hcmp. subst v.
        exists found. split; [done|]. rewrite Hfound. split.
        -- intros H [|k] t Hk; simpl in Hk.
           ++ injection Hk as <-. exists b. rewrite Nat.add_0_r.
              split; [done|]. by right.
           ++ replace (j + S k) with (S j + k) by lia. by apply H.
        -- intros H k t Hk. replace (S j + k) with (j + S k) by lia.
           by apply H.
      * apply Z.eqb_neq in Hcmp.
        exists false. split; [done|]. split; [done|]. intros H.
        destruct (H 0 tok eq_refl) as (b' & Hb' & Hacc).
        rewrite Nat.add_0_r, Hb in Hb'. injection Hb' as <-.
        destruct Hacc as [->|Hacc]; [done|]. congruence.
Qed.

Lemma match_tokens_matches_at B i toks :
  Forall well_formed_matcher toks → i + length toks ≤ length B →
  ∃ found, match_tokens B i 0 toks = Returned found ∧
    (found = true ↔ matches_at B toks i).
Proof.
  intros Hwf Hlen.
  destruct (match_tokens_spec B i toks 0 Hwf) as (found & Hrun & Hfound);
    [lia|].
  exists found. split; [done|]. by rewrite Hfound.
Qed.

(** What the outer loop can do, whatever the pattern: return -1 or raise
    with the buffer untouched, or return a visited offset [k] at which the
    inner loop said [true], after one slice assignment at [k]. *)
Lemma scan_from_shape B toks R count :
  ∀ i o B', scan_from B toks R i count = (o, B') →
    (o = Returned (-1)%Z ∧ B' = B
       ∧ ∀ k, i ≤ k < i + count → match_tokens B k 0 toks = Returned false)
    ∨ (∃ e, o = Raised e ∧ B' = B)
    ∨ (∃ k, o = Returned (Z.of_nat k) ∧ i ≤ k < i + count
         ∧ match_tokens B k 0 toks = Returned true
         ∧ (∀ k', i ≤ k' < k → match_tokens B k' 0 toks = Returned false)
         ∧ B' = slice_assign B k (k + length R) R).
Proof.
  induction count as [|count IH]; intros i o B' Hrun; simpl in Hrun.
  - injection Hrun as <- <-. left. split; [done|]. split; [done|]. lia.
  - destruct (match_tokens B i 0 toks) as [[|]|e] eqn:Hm.
    + injection Hrun as <- <-. right. right. exists i.
      split; [done|]. split; [lia|]. split; [done|]. split; [lia|done].
    + destruct (IH _ _ _ Hrun) as
        [(-> & -> & Hnone)|[(e & -> & ->)|(k & -> & Hk & Hmk & Hbefore & ->)]].
      * left. split; [done|]. split; [done|]. intros k Hk.
        destruct (decide (k = i)) as [->|]; [done|]. apply Hnone. lia.
      * right. left. by exists e.
      * right. right. exists k. split; [done|]. split; [lia|].
        split; [done|]. split; [|done]. intros k' Hk'.
        destruct (decide (k' = i)) as [->|]; [done|]. apply Hbefore. lia.
    + injection Hrun as <- <-. right. left. by exists e.
Qed.

(** On a pattern made of matchers the call never raises: it returns -1 and
    leaves the buffer alone when no window matches, and otherwise returns
    the leftmost matching offset after one slice assignment there. *)
Lemma replace_pattern_matchers B P R :
  Forall well_formed_matcher (split_space P) →
  (replace_pattern B P R = (Returned (-1)%Z, B)
     ∧ ∀ i, i + length (split_space P) ≤ length B →
         ¬ matches_at B (split_space P) i)
  ∨ (∃ i, replace_pattern B P R
            = (Returned (Z.of_nat i), slice_assign B i (i + length R) R)
       ∧ i + length (split_space P) ≤ length B
       ∧ matches_at B (split_space P) i
       ∧ ∀ k, k < i → ¬ matches_at B (split_space P) k).
Proof.
  intros Hwf. unfold replace_pattern.
  set (toks := split_space P) in *.
  set (count := length B + 1 - length toks).
  assert (Hvisit : ∀ k, k < count → k + length toks ≤ length B)
    by (unfold count; lia).
  assert (Hread : ∀ k found, k < count →
            match_tokens B k 0 toks = Returned found →
            (found = true ↔ matches_at B toks k)).
  { intros k found Hk Hm.
    destruct (match_tokens_matches_at B k toks Hwf (Hvisit k Hk))
      as (found' & Hm' & Hiff).
    rewrite Hm in Hm'. by injection Hm' as ->. }
  destruct (scan_from B toks R 0 count) as [o B'] eqn:Hrun.
  destruct (scan_from_shape _ _ _ _ _ _ _ Hrun) as
    [(-> & -> & Hnone)|[(e & -> & ->)|(k & -> & Hk & Hmk & Hbefore & ->)]].
  - left. split; [done|]. intros i Hi Hmatch.
    assert (Hic : i < count) by (unfold count; lia).
    apply (Hread i false Hic) in Hmatch; [done|]. apply Hnone. lia.
  - exfalso. destruct count as [|count']; [simpl in Hrun; congruence|].
    clear Hread.
    assert (Hno : ∀ n i, i + n ≤ S count' →
              ∀ e', fst (scan_from B toks R i n) ≠ Raised e').
    { induction n as [|n IHn]; intros i Hi e'; simpl; [done|].
      destruct (match_tokens_matches_at B i toks Hwf) as (f & Hf & _);
        [apply Hvisit; lia|].
      rewrite Hf. destruct f; [done|]. apply IHn. lia. }
    apply (Hno (S count') 0 ltac:(lia) e). by rewrite Hrun.
  - right. exists k. split; [done|]. split; [apply Hvisit; lia|].
    split; [by apply (Hread k true ltac:(lia))|].
    intros k' Hk' Hmatch.
    apply (Hread k' false ltac:(lia)) in Hmatch; [done|].
    apply Hbefore. lia.
Qed.

(** C1. For every buffer [B] and every pattern [P] of [N] space-separated
    matchers with [N <= len(B)], [replace_pattern(B, P, R)] returns the
    smallest offset [i] in [[0, len(B) - N]] at which every exact matcher of
    [P] equals the byte it faces and every wildcard accepts its byte, or -1
    when no such offset exists; the wildcard accepts every byte value. *)
Theorem replace_pattern_leftmost_match (B : list byte) (P : string)
    (R : list byte) :
  Forall well_formed_matcher (split_space P) →
  length (split_space P) ≤ length B →
  (∀ b, matcher_accepts "??" b) ∧
  ∃ r B', replace_pattern B P R = (Returned r, B') ∧
    ((r = (-1)%Z
        ∧ ∀ i, i ≤ length B - length (split_space P) →
            ¬ matches_at B (split_space P) i)
     ∨ (∃ i, r = Z.of_nat i
          ∧ i ≤ length B - length (split_space P)
          ∧ matches_at B (split_space P) i
          ∧ ∀ k, k < i → ¬ matches_at B (split_space P) k)).
Proof.
  intros Hwf HN. split; [apply wildcard_accepts_every_byte|].
  destruct (replace_pattern_matchers B P R Hwf)
    as [(Hrun & Hnone)|(i & Hrun & Hi & Hmatch & Hleft)].
  - exists (-1)%Z, B. split; [done|]. left. split; [done|].
    intros i Hi. apply Hnone. lia.
  - eexists _, _. split; [exact Hrun|]. right. exists i.
    split; [done|]. split; [lia|]. done.
Qed.

Lemma sample_pattern_matchers :
  Forall well_formed_matcher (split_space "8B ?? C4").
Proof. all_matchers. Qed.

Lemma replace_pattern_leftmost_match_witness :
  (∀ b, matcher_accepts "??" b) ∧
  ∃ r B',
    replace_pattern [x01; x8b; x81; xc4; x8b; x00; xc4] "8B ?? C4" [xb8]
    = (Returned r, B') ∧
    ((r = (-1)%Z
        ∧ ∀ i, i ≤ 7 - 3 →
            ¬ matches_at [x01; x8b; x81; xc4; x8b; x00; xc4]
                (split_space "8B ?? C4") i)
     ∨ (∃ i, r = Z.of_nat i ∧ i ≤ 7 - 3
          ∧ matches_at [x01; x8b; x81; xc4; x8b; x00; xc4]
              (split_space "8B ?? C4") i
          ∧ ∀ k, k < i →
              ¬ matches_at [x01; x8b; x81; xc4; x8b; x00; xc4]
                  (split_space "8B ?? C4") k)).
Proof.
  apply (replace_pattern_leftmost_match
           [x01; x8b; x81; xc4; x8b; x00; xc4] "8B ?? C4" [xb8]).
  - exact sample_pattern_matchers.
  - simpl. lia.
Defined.

(** C7. Frame condition of the matcher. A call of [replace_pattern]
    returns -1, returns an offset, or raises. When it returns -1 (or raises)
    the buffer is unchanged. When it returns an offset [i], the positions
    before [i] and the positions from [i + len(replacement)] on keep their
    values, and the [len(replacement)] positions from [i] on hold the
    replacement. *)
Theorem replace_pattern_frame (B : list byte) (P : string) (R : list byte)
    (o : outcome Z) (B' : list byte) :
  replace_pattern B P R = (o, B') →
  (o = Returned (-1)%Z ∨ (∃ e, o = Raised e)
   ∨ ∃ i, o = Returned (Z.of_nat i)) ∧
  (o = Returned (-1)%Z → B' = B) ∧
  (∀ e, o = Raised e → B' = B) ∧
  (∀ i, o = Returned (Z.of_nat i) →
     i ≤ length B
     ∧ length B' = (i + length R) `max` length B
     ∧ (∀ k, k < i → B' !! k = B !! k)
     ∧ (∀ k, k < length R → B' !! (i + k) = R !! k)
     ∧ (∀ k, i + length R ≤ k → B' !! k = B !! k)).
Proof.
  unfold replace_pattern. intros Hrun.
  destruct (scan_from_shape _ _ _ _ _ _ _ Hrun) as
    [(-> & -> & _)|[(e & -> & ->)|(k & -> & Hk & _ & _ & ->)]].
  - split; [by left|]. split; [done|]. split; [done|].
    intros i Hi. injection Hi. lia.
  - split; [right; left; by exists e|]. split; [done|]. split; [done|]. done.
  - split; [right; right; by exists k|].
    split; [intros Heq; injection Heq; lia|]. split; [done|].
    intros i Hi. injection Hi as Hi. apply Nat2Z.inj in Hi. subst i.
    assert (k ≤ length B) by lia.
    split; [done|]. split; [by apply slice_assign_length|].
    split; [|split]; intros j Hj.
    + by apply slice_assign_lookup_before.
    + by apply slice_assign_lookup_new.
    + by apply slice_assign_lookup_after.
Qed.

Lemma replace_pattern_frame_witness :
  (Returned 1%Z = Returned (-1)%Z ∨ (∃ e, Returned 1%Z = Raised e)
   ∨ ∃ i, Returned 1%Z = Returned (Z.of_nat i)) ∧
  (Returned 1%Z = Returned (-1)%Z →
     [x01; xb8; x05; xc4; x53] = [x01; x8b; x81; xc4; x53]) ∧
  (∀ e, Returned 1%Z = Raised e →
     [x01; xb8; x05; xc4; x53] = [x01; x8b; x81; xc4; x53]) ∧
  (∀ i, Returned 1%Z = Returned (Z.of_nat i) →
     i ≤ 5
     ∧ length [x01; xb8; x05; xc4; x53] = (i + 2) `max` 5
     ∧ (∀ k, k < i →
          [x01; xb8; x05; xc4; x53] !! k = [x01; x8b; x81; xc4; x53] !! k)
     ∧ (∀ k, k < 2 →
          [x01; xb8; x05; xc4; x53] !! (i + k) = [xb8; x05] !! k)
     ∧ (∀ k, i + 2 ≤ k →
          [x01; xb8; x05; xc4; x53] !! k = [x01; x8b; x81; xc4; x53] !! k)).
Proof.
  apply (replace_pattern_frame [x01; x8b; x81; xc4; x53] "8B ?? C4"
           [xb8; x05] (Returned 1%Z) [x01; xb8; x05; xc4; x53]).
  reflexivity.
Defined.

(** C6, as the code has it. When the leftmost match is at offset [i] and
    [i + len(replacement)] exceeds the buffer length, [replace_pattern]
    reports no error: it returns [i], and the buffer becomes its first [i]
    bytes followed by the whole replacement, so it grows to length
    [i + len(replacement)]. *)
Theorem replace_pattern_overrun_grows (B : list byte) (P : string)
    (R : list byte) (i : nat) :
  Forall well_formed_matcher (split_space P) →
  i + length (split_space P) ≤ length B →
  matches_at B (split_space P) i →
  (∀ k, k < i → ¬ matches_at B (split_space P) k) →
  length B < i + length R →
  replace_pattern B P R = (Returned (Z.of_nat i), take i B ++ R)
  ∧ length (take i B ++ R) = i + length R.
Proof.
  intros Hwf Hi Hmatch Hleft Hover.
  destruct (replace_pattern_matchers B P R Hwf)
    as [(_ & Hnone)|(i' & Hrun & Hi' & Hmatch' & Hleft')].
  - by destruct (Hnone i Hi).
  - assert (i' = i) as ->.
    { destruct (Nat.lt_trichotomy i' i) as [Hlt|[->|Hgt]]; [|done|].
      - by destruct (Hleft i' Hlt).
      - by destruct (Hleft' i Hgt). }
    rewrite Hrun. unfold slice_assign.
    rewrite (drop_ge B) by lia. rewrite app_nil_r.
    split; [done|]. rewrite length_app, length_take. lia.
Qed.

Lemma replace_pattern_overrun_grows_witness :
  replace_pattern [x00; xaa] "AA" [x01; x02]
    = (Returned (Z.of_nat 1), take 1 [x00; xaa] ++ [x01; x02])
  ∧ length (take 1 [x00; xaa] ++ [x01; x02]) = 1 + 2.
Proof.
  apply (replace_pattern_overrun_grows [x00; xaa] "AA" [x01; x02] 1).
  - all_matchers.
  - simpl. lia.
  - intros [|j] tok Hj; [|done]. injection Hj as <-.
    exists xaa. split; [done|]. right. reflexivity.
  - intros k Hk Hm. assert (k = 0) as -> by lia.
    destruct (Hm 0 "AA"%string eq_refl) as (b & Hb & [Hw|Hv]).
    + discriminate Hw.
    + injection Hb as <-. discriminate Hv.
  - simpl. lia.
Defined.

(** C6, as stated, fails: the pattern matches at offset 0 of a one-byte
    buffer, the two-byte replacement runs past the end, and the call
    returns 0 with the buffer grown to two bytes; nothing is raised. *)
Lemma replace_pattern_overrun_not_loud :
  matches_at [xaa] (split_space "AA") 0
  ∧ length [xaa] < 0 + length [x01; x02]
  ∧ replace_pattern [xaa] "AA" [x01; x02] = (Returned 0%Z, [x01; x02])
  ∧ ∀ e, fst (replace_pattern [xaa] "AA" [x01; x02]) ≠ Raised e.
Proof.
  split; [|split; [simpl; lia|split; [reflexivity|done]]].
  intros [|j] tok Hj; [|done]. injection Hj as <-.
  exists xaa. split; [done|]. right. reflexivity.
Qed.

(** ** Serialising the parameter *)

Lemma byte_val_of_Z z : byte_val (byte_of_Z z) = (z mod 256)%Z.
Proof.
  unfold byte_val, byte_of_Z.
  assert (Hlt : (0 ≤ z mod 256 < 256)%Z) by (apply Z.mod_pos_bound; lia).
  destruct (Byte.of_N (Z.to_N (z mod 256))) as [b|] eqn:Hb; simpl.
  - apply Byte.to_of_N in Hb. rewrite Hb. lia.
  - apply Byte.of_N_None_iff in Hb. lia.
Qed.

Lemma to_bytes4_little_in_range x :
  (0 ≤ x < 2 ^ 32)%Z →
  to_bytes4_little x
  = Returned [byte_of_Z x; byte_of_Z (x / 2 ^ 8);
              byte_of_Z (x / 2 ^ 16); byte_of_Z (x / 2 ^ 24)].
Proof.
  intros Hx. unfold to_bytes4_little.
  destruct (Z.ltb_spec x 0); [lia|].
  destruct (Z.leb_spec (2 ^ 32) x); [lia|done].
Qed.

Lemma to_bytes4_little_out_of_range x :
  (x < 0 ∨ 2 ^ 32 ≤ x)%Z → to_bytes4_little x = Raised OverflowError.
Proof.
  intros Hx. unfold to_bytes4_little.
  destruct (Z.ltb_spec x 0); [done|].
  destruct (Z.leb_spec (2 ^ 32) x); [done|lia].
Qed.

(** Exactly the ints of [[0, 2^32)] serialise, to four bytes that decode
    back to the int. *)
Lemma to_bytes4_little_returned x raid_bytes :
  to_bytes4_little x = Returned raid_bytes →
  (0 ≤ x < 2 ^ 32)%Z ∧ length raid_bytes = 4
  ∧ from_bytes_little raid_bytes = x.
Proof.
  intros H.
  destruct (decide (0 ≤ x < 2 ^ 32)%Z) as [Hx|Hx].
  - rewrite to_bytes4_little_in_range in H by done. injection H as <-.
    split; [done|]. split; [done|]. simpl. rewrite !byte_val_of_Z.
    change (2 ^ 8)%Z with 256%Z. change (2 ^ 16)%Z with 65536%Z.
    change (2 ^ 24)%Z with 16777216%Z. change (2 ^ 32)%Z with 4294967296%Z in Hx.
    Z.div_mod_to_equations. lia.
  - rewrite to_bytes4_little_out_of_range in H by lia. done.
Qed.

(** ** The patch set *)

Lemma contiguous_in_same_length needle hay :
  length needle = length hay → contiguous_in needle hay → hay = needle.
Proof.
  intros Hlen (before & after & ->).
  rewrite !length_app in Hlen.
  destruct before; [|simpl in Hlen; lia].
  destruct after; [|simpl in Hlen; lia].
  by rewrite app_nil_r.
Qed.

(** C3, as the code has it. For every parameter of [[0, 2^32)],
    [create_raid_patches] returns exactly three named patches, [get_raid],
    [set_raid] and [raid_status] in this order. The four little-endian bytes
    of the parameter sit in the replacement of [get_raid] after one byte and
    in the replacement of [set_raid] after four bytes. The replacement of
    [raid_status] is the constant 39 C0 90 90, whatever the parameter; it
    contains the serialisation only for the parameter 0x9090C039. *)
Theorem create_raid_patches_embedding (x : Z) :
  (0 ≤ x < 2 ^ 32)%Z →
  ∃ raid_bytes,
    to_bytes4_little x = Returned raid_bytes
    ∧ length raid_bytes = 4
    ∧ from_bytes_little raid_bytes = x
    ∧ create_raid_patches x
      = Returned
          [("get_raid"%string, (get_pattern, [xb8] ++ raid_bytes ++ [x90]));
           ("set_raid"%string,
            (set_pattern,
             [x41; xc7; x40; x04] ++ raid_bytes ++ [x90; x90; x90]));
           ("raid_status"%string, (status_pattern, [x39; xc0; x90; x90]))]
    ∧ contiguous_in raid_bytes ([xb8] ++ raid_bytes ++ [x90])
    ∧ contiguous_in raid_bytes
        ([x41; xc7; x40; x04] ++ raid_bytes ++ [x90; x90; x90])
    ∧ (contiguous_in raid_bytes [x39; xc0; x90; x90] ↔ x = 0x9090C039%Z).
Proof.
  intros Hx.
  destruct (to_bytes4_little x) as [raid_bytes|e] eqn:Hser;
    [|by rewrite to_bytes4_little_in_range in Hser].
  destruct (to_bytes4_little_returned _ _ Hser) as (_ & Hlen & Hback).
  exists raid_bytes. split; [done|]. split; [done|]. split; [done|].
  split; [unfold create_raid_patches; by rewrite Hser|].
  split; [by exists [xb8], [x90]|].
  split; [by exists [x41; xc7; x40; x04], [x90; x90; x90]|].
  split.
  - intros Hin. apply contiguous_in_same_length in Hin; [|done].
    subst raid_bytes. rewrite <- Hback. reflexivity.
  - intros ->. vm_compute in Hser. injection Hser as <-. by exists [], [].
Qed.

Lemma create_raid_patches_embedding_witness :
  ∃ raid_bytes,
    to_bytes4_little 5 = Returned raid_bytes
    ∧ length raid_bytes = 4
    ∧ from_bytes_little raid_bytes = 5%Z
    ∧ create_raid_patches 5
      = Returned
          [("get_raid"%string, (get_pattern, [xb8] ++ raid_bytes ++ [x90]));
           ("set_raid"%string,
            (set_pattern,
             [x41; xc7; x40; x04] ++ raid_bytes ++ [x90; x90; x90]));
           ("raid_status"%string, (status_pattern, [x39; xc0; x90; x90]))]
    ∧ contiguous_in raid_bytes ([xb8] ++ raid_bytes ++ [x90])
    ∧ contiguous_in raid_bytes
        ([x41; xc7; x40; x04] ++ raid_bytes ++ [x90; x90; x90])
    ∧ (contiguous_in raid_bytes [x39; xc0; x90; x90] ↔ 5%Z = 0x9090C039%Z).
Proof. apply (create_raid_patches_embedding 5). lia. Defined.

(** C3, as stated, fails: for the parameter 5 the three patches are
    returned, and the serialisation 05 00 00 00 is no contiguous
    sub-sequence of the replacement of [raid_status]. *)
Lemma raid_status_replacement_lacks_parameter :
  to_bytes4_little 5 = Returned [x05; x00; x00; x00]
  ∧ create_raid_patches 5
    = Returned
        [("get_raid"%string, (get_pattern, [xb8; x05; x00; x00; x00; x90]));
         ("set_raid"%string,
          (set_pattern,
           [x41; xc7; x40; x04; x05; x00; x00; x00; x90; x90; x90]));
         ("raid_status"%string, (status_pattern, [x39; xc0; x90; x90]))]
  ∧ ¬ contiguous_in [x05; x00; x00; x00] [x39; xc0; x90; x90].
Proof.
  split; [reflexivity|]. split; [reflexivity|].
  intros Hin. apply contiguous_in_same_length in Hin; [|done].
  discriminate Hin.
Qed.

(** ** Running the orchestrator *)

Lemma patch_executable_unreadable σ path x :
  (σ !! path = None ∨ ∃ f, σ !! path = Some f ∧ readable f = false) →
  patch_executable path x σ
  = (Raised (PatchError "Cannot read executable"), σ).
Proof.
  intros Hread.
  unfold patch_executable, mbind, M_bind, try_except, read_bytes, raise.
  destruct Hread as [->|(f & -> & ->)]; done.
Qed.

(** The orchestrator on a readable file, step by step. *)
Lemma patch_executable_readable σ path f x :
  σ !! path = Some f → readable f = true →
  patch_executable path x σ
  = match create_raid_patches x with
    | Raised e => (Raised e, σ)
    | Returned patches =>
        match apply_patches patches (content f) init_results with
        | Raised e => (Raised e, σ)
        | Returned (patched, res) =>
            if success res then
              if writable f
              then (Returned res, <[path := mk_file patched true true]> σ)
              else (Raised (PatchError "Cannot write executable"), σ)
            else (Returned res, σ)
        end
    end.
Proof.
  intros Hf Hr.
  unfold patch_executable, mbind, M_bind, try_except, read_bytes, raise,
    lift, write_bytes, mret, M_ret.
  rewrite Hf, Hr.
  destruct (create_raid_patches x) as [patches|e]; [|done].
  destruct (apply_patches patches (content f) init_results)
    as [[patched res]|e]; [|done].
  destruct (success res); [|done].
  rewrite Hf, Hr. by destruct (writable f).
Qed.



(** ** One turn of the orchestrator's loop *)

Lemma record_offset_success name o res :
  success (record_offset name o res) = true
  ↔ success res = true ∧ (0 ≤ o)%Z.
Proof.
  unfold record_offset. destruct (Z.ltb_spec o 0); simpl; [|tauto].
  split; [done|]. lia.
Qed.

Lemma record_offset_no_errors name o res :
  errors (record_offset name o res) = [] ↔ errors res = [] ∧ (0 ≤ o)%Z.
Proof.
  unfold record_offset. destruct (Z.ltb_spec o 0); simpl; [|tauto].
  split; [|lia]. intros Hnil. by apply app_eq_nil in Hnil as [_ ?].
Qed.

Lemma record_offset_reported name o res :
  reported name (record_offset name o res).
Proof.
  unfold record_offset, reported. destruct (Z.ltb_spec o 0); simpl.
  - right. apply elem_of_app. right. by apply list_elem_of_singleton.
  - left. exists o. split; [done|]. by rewrite lookup_insert_eq.
Qed.

Lemma record_offset_keeps_reported name name' o res :
  reported name res → reported name (record_offset name' o res).
Proof.
  destruct (decide (name' = name)) as [->|Hne];
    [intros _; apply record_offset_reported|].
  unfold record_offset, reported. intros [(off & Hoff & Hlook)|Herr];
    destruct (Z.ltb_spec o 0); simpl.
  - left. by exists off.
  - left. exists off. split; [done|]. by rewrite lookup_insert_ne.
  - right. apply elem_of_app. by left.
  - by right.
Qed.

(** ** The three signatures *)

Lemma get_pattern_matchers :
  Forall well_formed_matcher (split_space get_pattern).
Proof. unfold get_pattern. all_matchers. Qed.

Lemma set_pattern_matchers :
  Forall well_formed_matcher (split_space set_pattern).
Proof. unfold set_pattern. all_matchers. Qed.

Lemma status_pattern_matchers :
  Forall well_formed_matcher (split_space status_pattern).
Proof. unfold status_pattern. all_matchers. Qed.

Lemma replace_pattern_returns B P R :
  Forall well_formed_matcher (split_space P) →
  ∃ o B', replace_pattern B P R = (Returned o, B').
Proof.
  intros Hwf.
  destruct (replace_pattern_matchers B P R Hwf) as [[Hrun _]|(i & Hrun & _)];
    eauto.
Qed.

Lemma apply_patches_raid raid_bytes B :
  ∃ o1 o2 o3 B1 B2 B3,
    three_patches raid_bytes B o1 o2 o3 B1 B2 B3
    ∧ apply_patches
        [("get_raid"%string, (get_pattern, get_replacement raid_bytes));
         ("set_raid"%string, (set_pattern, set_replacement raid_bytes));
         ("raid_status"%string, (status_pattern, status_replacement))]
        B init_results
      = Returned (B3, three_results o1 o2 o3).
Proof.
  destruct (replace_pattern_returns B get_pattern
              (get_replacement raid_bytes) get_pattern_matchers)
    as (o1 & B1 & H1).
  destruct (replace_pattern_returns B1 set_pattern
              (set_replacement raid_bytes) set_pattern_matchers)
    as (o2 & B2 & H2).
  destruct (replace_pattern_returns B2 status_pattern
              status_replacement status_pattern_matchers)
    as (o3 & B3 & H3).
  exists o1, o2, o3, B1, B2, B3. split; [done|].
  cbn [apply_patches]. by rewrite H1, H2, H3.
Qed.

Lemma three_results_success o1 o2 o3 :
  success (three_results o1 o2 o3) = true
  ↔ (0 ≤ o1 ∧ 0 ≤ o2 ∧ 0 ≤ o3)%Z.
Proof.
  unfold three_results. rewrite !record_offset_success. simpl. tauto.
Qed.

Lemma three_results_no_errors o1 o2 o3 :
  errors (three_results o1 o2 o3) = [] ↔ (0 ≤ o1 ∧ 0 ≤ o2 ∧ 0 ≤ o3)%Z.
Proof.
  unfold three_results. rewrite !record_offset_no_errors. simpl. tauto.
Qed.

(** A run of the orchestrator on a readable file with a parameter that
    serialises: the three replacements are all made, and the outcome is read
    off the result record. *)
Lemma patch_executable_run σ path f x raid_bytes :
  σ !! path = Some f → readable f = true →
  to_bytes4_little x = Returned raid_bytes →
  ∃ o1 o2 o3 B1 B2 B3,
    three_patches raid_bytes (content f) o1 o2 o3 B1 B2 B3
    ∧ patch_executable path x σ
      = if success (three_results o1 o2 o3) then
          if writable f
          then (Returned (three_results o1 o2 o3),
                <[path := mk_file B3 true true]> σ)
          else (Raised (PatchError "Cannot write executable"), σ)
        else (Returned (three_results o1 o2 o3), σ).
Proof.
  intros Hf Hr Hser.
  destruct (apply_patches_raid raid_bytes (content f))
    as (o1 & o2 & o3 & B1 & B2 & B3 & Hthree & Happly).
  exists o1, o2, o3, B1, B2, B3. split; [done|].
  rewrite (patch_executable_readable σ path f) by done.
  unfold create_raid_patches. by rewrite Hser, Happly.
Qed.

(** C2. On a readable file and a parameter that serialises,
    [patch_executable] makes all three replacements, whatever the earlier
    ones returned, and its result accounts for each of the three names. The
    success flag is true exactly when the error list is empty, which is
    exactly when every patch matched. When some patch did not match, the
    result is returned with the file system as it was before the call; the
    patched buffer is written only when all three matched. *)
Theorem patch_executable_all_or_nothing (σ : gmap string file)
    (path : string) (f : file) (raid_index : Z) :
  σ !! path = Some f → readable f = true →
  (0 ≤ raid_index < 2 ^ 32)%Z →
  ∃ raid_bytes o1 o2 o3 B1 B2 B3 res,
    to_bytes4_little raid_index = Returned raid_bytes
    ∧ three_patches raid_bytes (content f) o1 o2 o3 B1 B2 B3
    ∧ res = three_results o1 o2 o3
    ∧ (∀ name, name ∈ ["get_raid"; "set_raid"; "raid_status"]%string →
         reported name res)
    ∧ (success res = true ↔ errors res = [])
    ∧ (success res = true ↔ (0 ≤ o1 ∧ 0 ≤ o2 ∧ 0 ≤ o3)%Z)
    ∧ (success res = false →
         patch_executable path raid_index σ = (Returned res, σ))
    ∧ (success res = true →
         patch_executable path raid_index σ
         = if writable f
           then (Returned res, <[path := mk_file B3 true true]> σ)
           else (Raised (PatchError "Cannot write executable"), σ)).
Proof.
  intros Hf Hr Hx.
  pose proof (to_bytes4_little_in_range _ Hx) as Hser.
  destruct (patch_executable_run σ path f raid_index _ Hf Hr Hser)
    as (o1 & o2 & o3 & B1 & B2 & B3 & Hthree & Hrun).
  eexists _, o1, o2, o3, B1, B2, B3, _.
  split; [exact Hser|]. split; [exact Hthree|]. split; [reflexivity|].
  split; [|split; [|split; [|split]]].
  - intros name Hname. unfold three_results.
    repeat (apply elem_of_cons in Hname as [->|Hname]);
      [| |apply record_offset_reported|by apply elem_of_nil in Hname].
    + do 2 apply record_offset_keeps_reported. apply record_offset_reported.
    + apply record_offset_keeps_reported. apply record_offset_reported.
  - by rewrite three_results_success, three_results_no_errors.
  - apply three_results_success.
  - intros Hs. by rewrite Hrun, Hs.
  - intros Hs. by rewrite Hrun, Hs.
Qed.

Lemma patch_executable_all_or_nothing_witness :
  ∃ raid_bytes o1 o2 o3 B1 B2 B3 res,
    to_bytes4_little 5 = Returned raid_bytes
    ∧ three_patches raid_bytes stale_image o1 o2 o3 B1 B2 B3
    ∧ res = three_results o1 o2 o3
    ∧ (∀ name, name ∈ ["get_raid"; "set_raid"; "raid_status"]%string →
         reported name res)
    ∧ (success res = true ↔ errors res = [])
    ∧ (success res = true ↔ (0 ≤ o1 ∧ 0 ≤ o2 ∧ 0 ≤ o3)%Z)
    ∧ (success res = false →
         patch_executable "game.exe" 5 (one_file stale_image)
         = (Returned res, one_file stale_image))
    ∧ (success res = true →
         patch_executable "game.exe" 5 (one_file stale_image)
         = (Returned res,
            <["game.exe"%string := mk_file B3 true true]>
              (one_file stale_image))).
Proof.
  apply (patch_executable_all_or_nothing (one_file stale_image) "game.exe"
           (mk_file stale_image true true) 5).
  - reflexivity.
  - reflexivity.
  - lia.
Defined.

Example patch_stale_image :
  patch_executable "game.exe" 5 (one_file stale_image)
  = (Returned (mk_results false
       (<["raid_status"%string := 6%Z]> (<["get_raid"%string := 0%Z]> ∅))
       ["set_raid pattern scan failed"%string]),
     one_file stale_image).
Proof. vm_compute. reflexivity. Qed.

(** ** Patch sites survive later patches *)

Lemma get_pattern_avoids :
  avoids (split_space get_pattern) xb8 ∧ avoids (split_space get_pattern) x90.
Proof.
  split; unfold get_pattern; simpl;
    repeat (constructor 2; [intros [?|?]; discriminate|]); constructor 1.
Qed.

Lemma set_pattern_avoids :
  avoids (split_space set_pattern) xb8 ∧ avoids (split_space set_pattern) x90.
Proof.
  split; unfold set_pattern; simpl;
    repeat (constructor 2; [intros [?|?]; discriminate|]); constructor 1.
Qed.

Lemma status_pattern_avoids :
  avoids (split_space status_pattern) xb8
  ∧ avoids (split_space status_pattern) x90.
Proof.
  split; unfold status_pattern; simpl;
    repeat (constructor 2; [intros [?|?]; discriminate|]); constructor 1.
Qed.

(** A matching window cannot cover a byte that no matcher accepts. *)
Lemma window_misses_avoided B toks i p b :
  matches_at B toks i → avoids toks b → B !! p = Some b →
  ¬ (i ≤ p < i + length toks).
Proof.
  intros Hmatch Havoid Hp Hin.
  destruct (lookup_lt_is_Some_2 toks (p - i)) as [tok Htok]; [lia|].
  destruct (Hmatch _ _ Htok) as (b' & Hb' & Hacc).
  replace (i + (p - i)) with p in Hb' by lia.
  rewrite Hp in Hb'. injection Hb' as <-.
  by apply (Forall_lookup_1 _ _ _ _ Havoid Htok).
Qed.

(** A segment whose first and last bytes no matcher accepts, and which is
    no longer than the pattern, survives a replacement that is no longer
    than the pattern either. *)
Lemma replace_pattern_keeps_occurrence B P R o B' seg p b0 b1 :
  Forall well_formed_matcher (split_space P) →
  length R ≤ length (split_space P) →
  0 < length seg ≤ length (split_space P) →
  seg !! 0 = Some b0 → seg !! (length seg - 1) = Some b1 →
  avoids (split_space P) b0 → avoids (split_space P) b1 →
  occurs_at seg B p →
  replace_pattern B P R = (o, B') →
  occurs_at seg B' p.
Proof.
  intros Hwf HR Hseg H0 H1 Ha0 Ha1 Hocc Hrun.
  destruct (replace_pattern_matchers B P R Hwf)
    as [(Hrun' & _)|(i & Hrun' & Hi & Hmatch & _)];
    rewrite Hrun in Hrun'; injection Hrun' as -> ->; [done|].
  pose proof (Hocc _ _ H0) as Hp0. rewrite Nat.add_0_r in Hp0.
  pose proof (Hocc _ _ H1) as Hp1.
  pose proof (window_misses_avoided _ _ _ _ _ Hmatch Ha0 Hp0).
  pose proof (window_misses_avoided _ _ _ _ _ Hmatch Ha1 Hp1).
  intros k b Hk. pose proof (lookup_lt_Some _ _ _ Hk) as Hklt.
  destruct (decide (p + length seg ≤ i)).
  - rewrite slice_assign_lookup_before by lia. by apply Hocc.
  - rewrite slice_assign_lookup_after by lia. by apply Hocc.
Qed.

(** A six-byte segment B8 .. 90 survives each of the three patches. *)
Lemma get_replacement_is_site raid_bytes :
  length raid_bytes = 4 → is_site (get_replacement raid_bytes).
Proof.
  intros Hlen.
  destruct raid_bytes as [|a [|b [|c [|d [|? ?]]]]]; try done.
Qed.

Lemma three_patches_keep_site raid_bytes B o1 o2 o3 B1 B2 B3 seg p :
  length raid_bytes = 4 → is_site seg → occurs_at seg B p →
  three_patches raid_bytes B o1 o2 o3 B1 B2 B3 →
  occurs_at seg B3 p.
Proof.
  intros Hlen (Hseg & H0 & H5) Hocc (H1 & H2 & H3).
  assert (Hlast : seg !! (length seg - 1) = Some x90) by by rewrite Hseg.
  destruct get_pattern_avoids, set_pattern_avoids, status_pattern_avoids.
  eapply (replace_pattern_keeps_occurrence B2); try exact H3; try done;
    [apply status_pattern_matchers|simpl; lia|rewrite Hseg; simpl; lia|].
  eapply (replace_pattern_keeps_occurrence B1); try exact H2; try done;
    [apply set_pattern_matchers
    |unfold set_replacement; rewrite !length_app, Hlen; simpl; lia
    |rewrite Hseg; simpl; lia|].
  eapply (replace_pattern_keeps_occurrence B); try exact H1; try done;
    [apply get_pattern_matchers
    |unfold get_replacement; rewrite !length_app, Hlen; simpl; lia
    |rewrite Hseg; simpl; lia].
Qed.

(** When the [get_raid] patch matched at [o1], the buffer the run ends with
    holds B8, the parameter bytes and 90 at [o1]. *)
Lemma three_patches_site raid_bytes B o1 o2 o3 B1 B2 B3 :
  length raid_bytes = 4 → (0 ≤ o1)%Z →
  three_patches raid_bytes B o1 o2 o3 B1 B2 B3 →
  ∃ i1, o1 = Z.of_nat i1
        ∧ occurs_at (get_replacement raid_bytes) B3 i1.
Proof.
  intros Hlen Ho1 Hthree. pose proof Hthree as (H1 & H2 & H3).
  destruct (replace_pattern_matchers B get_pattern
              (get_replacement raid_bytes) get_pattern_matchers)
    as [(Hrun & _)|(i & Hrun & Hi & _)];
    rewrite H1 in Hrun; [assert (o1 = (-1)%Z) by congruence; lia|].
  assert (Ho : o1 = Z.of_nat i) by congruence.
  assert (HB : B1 = slice_assign B i (i + length (get_replacement raid_bytes))
                      (get_replacement raid_bytes)) by congruence.
  clear Hrun. exists i. split; [done|].
  assert (Hsite1 : occurs_at (get_replacement raid_bytes) B1 i).
  { intros k b Hk. rewrite HB.
    rewrite slice_assign_lookup_new;
      [done|lia|by apply lookup_lt_Some in Hk]. }
  assert (Hkeep : ∀ Bx By o P R,
            Forall well_formed_matcher (split_space P) →
            length R ≤ length (split_space P) →
            6 ≤ length (split_space P) →
            avoids (split_space P) xb8 → avoids (split_space P) x90 →
            occurs_at (get_replacement raid_bytes) Bx i →
            replace_pattern Bx P R = (o, By) →
            occurs_at (get_replacement raid_bytes) By i).
  { intros Bx By o P R Hwf HR HN Hb8 H90 Hocc Hrun.
    destruct (get_replacement_is_site raid_bytes Hlen) as (Hl & Hf & Hl5).
    eapply (replace_pattern_keeps_occurrence Bx P R o By _ i xb8 x90);
      try done; rewrite Hl; [lia|done]. }
  destruct set_pattern_avoids, status_pattern_avoids.
  eapply (Hkeep B2 B3); try exact H3; try done;
    try apply status_pattern_matchers; try (simpl; lia).
  eapply (Hkeep B1 B2); try exact H2; try done;
    try apply set_pattern_matchers; try (simpl; lia).
  unfold set_replacement; rewrite !length_app, Hlen; simpl; lia.
Qed.

(** ** Containment and the verifier *)

Lemma bytes_prefix_occurs needle hay :
  bytes_prefix needle hay = true ↔ occurs_at needle hay 0.
Proof.
  revert hay. induction needle as [|a needle IH]; intros hay; simpl.
  - split; [|done]. intros _ k b Hk. done.
  - destruct hay as [|c hay].
    + split; [done|]. intros Hocc. by specialize (Hocc 0 a eq_refl).
    + rewrite andb_true_iff, IH. split.
      * intros [Hac Hocc]. apply Byte.byte_dec_bl in Hac. subst c.
        intros [|k] b Hk; simpl in *; [done|]. by apply (Hocc k b).
      * intros Hocc. split.
        -- pose proof (Hocc 0 a eq_refl) as Hc. simpl in Hc.
           injection Hc as ->. by apply Byte.byte_dec_lb.
        -- intros k b Hk. by apply (Hocc (S k) b).
Qed.

Lemma bytes_in_occurs needle hay :
  bytes_in needle hay = true ↔ ∃ i, occurs_at needle hay i.
Proof.
  induction hay as [|c hay IH].
  - simpl. rewrite orb_false_r, bytes_prefix_occurs. split; [by exists 0|].
    intros [i Hocc] k b Hk. apply Hocc in Hk.
    by rewrite lookup_nil in Hk.
  - cbn [bytes_in]. rewrite orb_true_iff, bytes_prefix_occurs, IH. split.
    + intros [Hocc|[i Hocc]]; [by exists 0|]. exists (S i).
      intros k b Hk. by apply (Hocc k b).
    + intros [[|i] Hocc]; [by left|]. right. exists i.
      intros k b Hk. by apply (Hocc k b).
Qed.

Lemma verify_patch_readable σ path f x raid_bytes :
  σ !! path = Some f → readable f = true →
  to_bytes4_little x = Returned raid_bytes →
  verify_patch path x σ
  = (Returned (bytes_in (get_replacement raid_bytes) (content f)), σ).
Proof.
  intros Hf Hr Hser.
  unfold verify_patch, try_except, mbind, M_bind, read_bytes, lift.
  by rewrite Hf, Hr, Hser.
Qed.

(** The verifier returns a boolean and leaves the file system alone. *)
Lemma verify_patch_total σ path x :
  ∃ b, verify_patch path x σ = (Returned b, σ).
Proof.
  unfold verify_patch, try_except, mbind, M_bind, read_bytes, lift,
    mret, M_ret.
  destruct (σ !! path) as [f|]; [|by eexists].
  destruct (readable f); [|by eexists].
  destruct (to_bytes4_little x); by eexists.
Qed.

Lemma verify_patch_unreadable σ path x :
  (σ !! path = None ∨ ∃ f, σ !! path = Some f ∧ readable f = false) →
  verify_patch path x σ = (Returned false, σ).
Proof.
  unfold verify_patch, try_except, mbind, M_bind, read_bytes, lift,
    mret, M_ret.
  intros [->|(f & -> & ->)]; done.
Qed.

(** ** The detector *)

Lemma detect_at_in_range B i :
  i + 5 < length B →
  ∃ r, detect_at B i = Returned r ∧ ∀ v, r = Some v → (1 ≤ v ≤ 38)%Z.
Proof.
  intros Hi. unfold detect_at.
  destruct (lookup_lt_is_Some_2 B i) as [b0 ->]; [lia|].
  destruct (lookup_lt_is_Some_2 B (i + 5)) as [b5 ->]; [lia|].
  destruct (Byte.eqb b0 xb8); [|by eexists].
  destruct (Byte.eqb b5 x90); [|by eexists].
  destruct (_ && _)%bool eqn:Hrange; [|by eexists].
  eexists. split; [done|]. intros v [= <-].
  apply andb_true_iff in Hrange as [?%Z.leb_le ?%Z.leb_le]. lia.
Qed.

(** The scan inside the buffer never raises: it returns the value of the
    first window that the loop body accepts, or [None]. *)
Lemma detect_scan_first B count :
  ∀ i, i + count ≤ length B - 5 →
    (detect_scan B i count = Returned None
       ∧ ∀ k, i ≤ k < i + count → detect_at B k = Returned None)
    ∨ (∃ k v, detect_scan B i count = Returned (Some v)
         ∧ i ≤ k < i + count
         ∧ detect_at B k = Returned (Some v)
         ∧ (1 ≤ v ≤ 38)%Z
         ∧ ∀ k', i ≤ k' < k → detect_at B k' = Returned None).
Proof.
  induction count as [|count IH]; intros i Hi; simpl.
  - left. split; [done|]. lia.
  - destruct (detect_at_in_range B i) as (r & Hr & Hv); [lia|].
    rewrite Hr. destruct r as [v|].
    + right. exists i, v. split; [done|]. split; [lia|].
      split; [done|]. split; [by apply Hv|]. lia.
    + destruct (IH (S i)) as [(Hrun & Hnone)|(k & v & Hrun & Hk & Hat & Hv' & Hb)];
        [lia| |].
      * left. split; [done|]. intros k Hk.
        destruct (decide (k = i)) as [->|]; [done|]. apply Hnone. lia.
      * right. exists k, v. split; [done|]. split; [lia|].
        split; [done|]. split; [done|]. intros k' Hk'.
        destruct (decide (k' = i)) as [->|]; [done|]. apply Hb. lia.
Qed.

Lemma detect_current_patch_readable σ path f :
  σ !! path = Some f → readable f = true →
  detect_current_patch path σ
  = (detect_scan (content f) 0 (length (content f) - 5), σ)
  ∧ ∃ r, detect_scan (content f) 0 (length (content f) - 5) = Returned r.
Proof.
  intros Hf Hr.
  assert (Hret : ∃ r, detect_scan (content f) 0 (length (content f) - 5)
                      = Returned r).
  { destruct (detect_scan_first (content f) (length (content f) - 5) 0)
      as [(Hrun & _)|(k & v & Hrun & _)]; [lia| |]; eauto. }
  split; [|done]. destruct Hret as [r Hret].
  unfold detect_current_patch, try_except, mbind, M_bind, path_exists,
    read_bytes, lift, mret, M_ret.
  rewrite Hf. destruct f as [data r' w|]; [|done].
  cbn [negb]. rewrite Hf, Hr. by rewrite Hret.
Qed.

Lemma detect_current_patch_unreadable σ path :
  (σ !! path = None ∨ ∃ data w, σ !! path = Some (mk_file data false w)) →
  detect_current_patch path σ = (Returned None, σ).
Proof.
  unfold detect_current_patch, try_except, mbind, M_bind, path_exists,
    read_bytes, lift, mret, M_ret.
  intros [Hnone|(data & w & Hf)].
  - by rewrite Hnone.
  - rewrite Hf. cbn [negb]. by rewrite Hf.
Qed.

Lemma no_access_or_not (o : option file) :
  o = Some no_access ∨ o ≠ Some no_access.
Proof. destruct o as [[data r w|]|]; (by left) || by right. Qed.

(** [exists()] is called before the [try]: its error is not swallowed. *)
Lemma detect_current_patch_no_access σ path :
  σ !! path = Some no_access →
  detect_current_patch path σ = (Raised OSError, σ).
Proof.
  intros Hf. unfold detect_current_patch, mbind, M_bind, path_exists.
  by rewrite Hf.
Qed.

(** Where the path can be examined the detector returns, leaves the file
    system alone, and what it returns is [None] or a value of 1..38. *)
Lemma detect_current_patch_total σ path :
  σ !! path ≠ Some no_access →
  ∃ r, detect_current_patch path σ = (Returned r, σ)
       ∧ ∀ v, r = Some v → (1 ≤ v ≤ 38)%Z.
Proof.
  intros Hok. destruct (σ !! path) as [[data [|] w|]|] eqn:Hf; [| |done|].
  - destruct (detect_current_patch_readable σ path _ Hf eq_refl) as [-> _].
    simpl content.
    destruct (detect_scan_first data (length data - 5) 0)
      as [(Hrun & _)|(k & v & Hrun & _ & _ & Hv & _)]; [lia| |];
      rewrite Hrun; eexists; (split; [done|]); [done|].
    by intros ? [= <-].
  - exists None. split; [|done].
    apply detect_current_patch_unreadable. eauto.
  - exists None. split; [|done].
    apply detect_current_patch_unreadable. eauto.
Qed.

(** Every way the detector can end: with the file system as it was, and
    with a value of 1..38 when it returns one. *)
Lemma detect_current_patch_ends σ path o σ' :
  detect_current_patch path σ = (o, σ') →
  σ' = σ
  ∧ ((∃ r, o = Returned r ∧ ∀ v, r = Some v → (1 ≤ v ≤ 38)%Z)
     ∨ (o = Raised OSError ∧ σ !! path = Some no_access)).
Proof.
  intros Hrun.
  destruct (no_access_or_not (σ !! path)) as [Hna|Hok].
  - rewrite detect_current_patch_no_access in Hrun by done.
    injection Hrun as <- <-. split; [done|]. by right.
  - destruct (detect_current_patch_total σ path Hok) as (r & Hr & Hv).
    rewrite Hr in Hrun. injection Hrun as <- <-. split; [done|].
    left. by exists r.
Qed.

(** At a patch site the loop body decodes the four bytes between B8 and
    90. *)
Lemma detect_at_site B i raid_bytes :
  length raid_bytes = 4 →
  occurs_at (get_replacement raid_bytes) B i →
  i + 5 < length B
  ∧ detect_at B i
    = Returned (if ((1 <=? from_bytes_little raid_bytes)
                    && (from_bytes_little raid_bytes <=? 38))%Z
                then Some (from_bytes_little raid_bytes) else None).
Proof.
  intros Hlen Hocc.
  destruct raid_bytes as [|a [|b [|c [|d [|? ?]]]]]; try done.
  pose proof (Hocc 0 _ eq_refl) as H0. rewrite Nat.add_0_r in H0.
  pose proof (Hocc 1 _ eq_refl) as H1. pose proof (Hocc 2 _ eq_refl) as H2.
  pose proof (Hocc 3 _ eq_refl) as H3. pose proof (Hocc 4 _ eq_refl) as H4.
  pose proof (Hocc 5 _ eq_refl) as H5.
  split; [by apply lookup_lt_Some in H5|].
  assert (Hslice : slice B (i + 1) (i + 5) = [a; b; c; d]).
  { unfold slice. replace (i + 5 - (i + 1)) with 4 by lia.
    apply list_eq. intros k.
    destruct (decide (k < 4)) as [Hk|Hk].
    - rewrite lookup_take_lt, lookup_drop by done.
      destruct k as [|[|[|[|k]]]]; [| | | |lia].
      + by rewrite Nat.add_0_r.
      + by replace (i + 1 + 1) with (i + 2) by lia.
      + by replace (i + 1 + 2) with (i + 3) by lia.
      + by replace (i + 1 + 3) with (i + 4) by lia.
    - rewrite lookup_take_ge by lia. symmetry.
      apply lookup_ge_None_2. simpl. lia. }
  unfold detect_at. rewrite H0, H5. simpl Byte.eqb. cbv iota.
  rewrite Hslice. by destruct (_ && _)%bool.
Qed.

(** ** After a successful run *)

(** A run that returns with the success flag set has read a readable and
    writable file, made the three replacements, all matched, and written
    the final buffer. *)
Lemma patch_executable_succeeded σ path x res σ' :
  patch_executable path x σ = (Returned res, σ') → success res = true →
  ∃ f raid_bytes o1 o2 o3 B1 B2 B3,
    σ !! path = Some f ∧ readable f = true ∧ writable f = true
    ∧ to_bytes4_little x = Returned raid_bytes
    ∧ three_patches raid_bytes (content f) o1 o2 o3 B1 B2 B3
    ∧ (0 ≤ o1 ∧ 0 ≤ o2 ∧ 0 ≤ o3)%Z
    ∧ res = three_results o1 o2 o3
    ∧ σ' = <[path := mk_file B3 true true]> σ.
Proof.
  intros Hrun Hs.
  destruct (σ !! path) as [f|] eqn:Hf;
    [|rewrite patch_executable_unreadable in Hrun by eauto; done].
  destruct (readable f) eqn:Hr;
    [|rewrite patch_executable_unreadable in Hrun by eauto; done].
  destruct (to_bytes4_little x) as [raid_bytes|e] eqn:Hser.
  - destruct (patch_executable_run σ path f x _ Hf Hr Hser)
      as (o1 & o2 & o3 & B1 & B2 & B3 & Hthree & Hrun').
    rewrite Hrun in Hrun'.
    destruct (success (three_results o1 o2 o3)) eqn:Hs'.
    + destruct (writable f) eqn:Hw; [|done]. injection Hrun' as -> ->.
      exists f, raid_bytes, o1, o2, o3, B1, B2, B3.
      repeat (split; [done|]).
      split; [by apply three_results_success|done].
    + injection Hrun' as -> ->. congruence.
  - rewrite (patch_executable_readable σ path f) in Hrun by done.
    unfold create_raid_patches in Hrun. by rewrite Hser in Hrun.
Qed.

(** After a successful run the file holds B8, the parameter bytes and 90 at
    the offset reported for [get_raid]. *)
Lemma patch_executable_leaves_site σ path x res σ' :
  patch_executable path x σ = (Returned res, σ') → success res = true →
  ∃ raid_bytes i1 patched,
    to_bytes4_little x = Returned raid_bytes
    ∧ offsets res !! "get_raid"%string = Some (Z.of_nat i1)
    ∧ σ' !! path = Some (mk_file patched true true)
    ∧ occurs_at (get_replacement raid_bytes) patched i1.
Proof.
  intros Hrun Hs.
  destruct (patch_executable_succeeded _ _ _ _ _ Hrun Hs)
    as (f & raid_bytes & o1 & o2 & o3 & B1 & B2 & B3 & Hf & Hr & Hw & Hser
        & Hthree & (Ho1 & Ho2 & Ho3) & -> & ->).
  destruct (to_bytes4_little_returned _ _ Hser) as (_ & Hlen & _).
  destruct (three_patches_site _ _ _ _ _ _ _ _ Hlen Ho1 Hthree)
    as (i1 & -> & Hsite).
  exists raid_bytes, i1, B3. split; [done|].
  split; [|split; [by rewrite lookup_insert_eq|done]].
  unfold three_results, record_offset.
  destruct (Z.ltb_spec (Z.of_nat i1) 0); [lia|].
  destruct (Z.ltb_spec o2 0); [lia|].
  destruct (Z.ltb_spec o3 0); [lia|]. simpl.
  rewrite lookup_insert_ne by done. rewrite lookup_insert_ne by done.
  by rewrite lookup_insert_eq.
Qed.

(** A six-byte segment B8 .. 90 already in the file is still there, at the
    same offset, after a successful run. *)
Lemma patch_executable_keeps_site σ path x res σ' f seg p :
  patch_executable path x σ = (Returned res, σ') → success res = true →
  σ !! path = Some f → is_site seg → occurs_at seg (content f) p →
  ∃ patched, σ' !! path = Some (mk_file patched true true)
             ∧ occurs_at seg patched p.
Proof.
  intros Hrun Hs Hf Hseg Hocc.
  destruct (patch_executable_succeeded _ _ _ _ _ Hrun Hs)
    as (f' & raid_bytes & o1 & o2 & o3 & B1 & B2 & B3 & Hf' & Hr & Hw & Hser
        & Hthree & _ & -> & ->).
  rewrite Hf in Hf'. injection Hf' as <-.
  destruct (to_bytes4_little_returned _ _ Hser) as (_ & Hlen & _).
  exists B3. split; [by rewrite lookup_insert_eq|].
  by eapply three_patches_keep_site.
Qed.

Lemma verify_patch_at_site σ path patched x raid_bytes i :
  σ !! path = Some (mk_file patched true true) →
  to_bytes4_little x = Returned raid_bytes →
  occurs_at (get_replacement raid_bytes) patched i →
  verify_patch path x σ = (Returned true, σ).
Proof.
  intros Hf Hser Hocc.
  rewrite (verify_patch_readable σ path _ x raid_bytes Hf) by done.
  simpl content. replace (bytes_in _ _) with true; [done|].
  symmetry. apply bytes_in_occurs. by exists i.
Qed.

(** C8, as the code has it. Immediately after a successful
    [patch_executable(path, X)], [verify_patch(path, X)] returns true. After
    a subsequent successful [patch_executable(path, Y)] on the same file,
    [verify_patch(path, Y)] returns true and [verify_patch(path, X)] still
    returns true: the second run patches other occurrences of the
    signatures and leaves the first patch site in place. *)
Theorem verify_after_patch (σ σ1 : gmap string file) (path : string)
    (X : Z) (res1 : results) :
  patch_executable path X σ = (Returned res1, σ1) → success res1 = true →
  verify_patch path X σ1 = (Returned true, σ1)
  ∧ ∀ Y res2 σ2,
      patch_executable path Y σ1 = (Returned res2, σ2) →
      success res2 = true →
      verify_patch path Y σ2 = (Returned true, σ2)
      ∧ verify_patch path X σ2 = (Returned true, σ2).
Proof.
  intros Hrun1 Hs1.
  destruct (patch_executable_leaves_site _ _ _ _ _ Hrun1 Hs1)
    as (rbX & i1 & F1 & HserX & _ & Hf1 & Hsite1).
  split; [by eapply verify_patch_at_site|].
  intros Y res2 σ2 Hrun2 Hs2.
  destruct (patch_executable_leaves_site _ _ _ _ _ Hrun2 Hs2)
    as (rbY & i2 & F2 & HserY & _ & Hf2 & Hsite2).
  split; [by eapply verify_patch_at_site|].
  destruct (to_bytes4_little_returned _ _ HserX) as (_ & HlenX & _).
  destruct (patch_executable_keeps_site _ _ _ _ _ _ _ i1 Hrun2 Hs2 Hf1
              (get_replacement_is_site rbX HlenX) Hsite1)
    as (F2' & Hf2' & Hkept).
  by eapply verify_patch_at_site.
Qed.

Lemma verify_after_patch_witness :
  ∃ σ1 σ2 res1 res2,
    patch_executable "game.exe" 5 (one_file double_image)
      = (Returned res1, σ1)
    ∧ patch_executable "game.exe" 6 σ1 = (Returned res2, σ2)
    ∧ verify_patch "game.exe" 5 σ1 = (Returned true, σ1)
    ∧ verify_patch "game.exe" 6 σ2 = (Returned true, σ2)
    ∧ verify_patch "game.exe" 5 σ2 = (Returned true, σ2).
Proof.
  eexists _, _, _, _.
  split; [vm_compute; reflexivity|]. split; [vm_compute; reflexivity|].
  destruct (verify_after_patch (one_file double_image) _ "game.exe" 5 _
              ltac:(vm_compute; reflexivity) eq_refl) as [Hv1 Hnext].
  destruct (Hnext 6%Z _ _ ltac:(vm_compute; reflexivity) eq_refl)
    as [Hv2 Hv1'].
  split; [exact Hv1|]. split; [exact Hv2|exact Hv1'].
Defined.

(** C8, as stated, fails: on an image that holds every signature twice,
    patching with 5 and then with 6 both succeed, and [verify_patch] for 5
    still returns true after the second run. *)
Lemma verify_true_after_other_patch :
  ∃ σ1 σ2 res1 res2,
    patch_executable "game.exe" 5 (one_file double_image)
      = (Returned res1, σ1)
    ∧ success res1 = true
    ∧ patch_executable "game.exe" 6 σ1 = (Returned res2, σ2)
    ∧ success res2 = true
    ∧ 6%Z ≠ 5%Z
    ∧ verify_patch "game.exe" 5 σ2 = (Returned true, σ2).
Proof.
  eexists _, _, _, _.
  split; [vm_compute; reflexivity|]. split; [reflexivity|].
  split; [vm_compute; reflexivity|]. split; [reflexivity|].
  split; [done|]. vm_compute. reflexivity.
Qed.







(** C9. Neither read-only operation changes the file system, and
    [verify_patch], whose whole body is inside its [try], always returns a
    boolean. When the file is missing or cannot be read, [verify_patch]
    returns [False] and [detect_current_patch] returns [None]. But
    [detect_current_patch] calls [exists()] before its [try]: on a path
    that may not be examined [verify_patch] still returns [False], while
    the error of [exists()] leaves [detect_current_patch] as an exception
    instead of becoming [None]. *)
Theorem detect_current_patch_lets_stat_error_out (σ : gmap string file)
    (path : string) (raid_index : Z) :
  (∃ b, verify_patch path raid_index σ = (Returned b, σ))
  ∧ (∀ o σ', detect_current_patch path σ = (o, σ') → σ' = σ)
  ∧ ((σ !! path = None
      ∨ ∃ data w, σ !! path = Some (mk_file data false w)) →
       verify_patch path raid_index σ = (Returned false, σ)
       ∧ detect_current_patch path σ = (Returned None, σ))
  ∧ (σ !! path = Some no_access →
       verify_patch path raid_index σ = (Returned false, σ)
       ∧ detect_current_patch path σ = (Raised OSError, σ)).
Proof.
  split; [apply verify_patch_total|]. split; [|split].
  - intros o σ' Hrun. by destruct (detect_current_patch_ends _ _ _ _ Hrun).
  - intros Hbad. split; [|by apply detect_current_patch_unreadable].
    apply verify_patch_unreadable.
    destruct Hbad as [?|(data & w & Hf)]; [by left|right].
    by exists (mk_file data false w).
  - intros Hna. split; [|by apply detect_current_patch_no_access].
    apply verify_patch_unreadable. right. by exists no_access.
Qed.

Lemma detect_current_patch_lets_stat_error_out_witness :
  verify_patch "game.exe" 5 ({[ "game.exe"%string := no_access ]})
  = (Returned false, {[ "game.exe"%string := no_access ]})
  ∧ detect_current_patch "game.exe" ({[ "game.exe"%string := no_access ]})
    = (Raised OSError, {[ "game.exe"%string := no_access ]}).
Proof.
  destruct (detect_current_patch_lets_stat_error_out
              ({[ "game.exe"%string := no_access ]}) "game.exe" 5)
    as (_ & _ & _ & Hna).
  apply Hna. reflexivity.
Defined.

(** * Further properties *)

(** ** Errors of [replace_pattern] *)

Lemma match_tokens_raises B i toks :
  ∀ j e, i + j + length toks ≤ length B →
    match_tokens B i j toks = Raised e →
    e = ValueError ∧ ¬ Forall well_formed_matcher toks.
Proof.
  induction toks as [|tok toks IH]; intros j e Hlen Hrun; simpl in *;
    [done|].
  destruct (String.eqb tok "??") eqn:Hwild.
  - destruct (IH (S j) e) as [-> Hbad]; [lia|done|].
    split; [done|]. intros Hwf. apply Hbad. by inversion Hwf.
  - destruct (int16 tok) as [v|] eqn:Hv.
    + destruct (lookup_lt_is_Some_2 B (i + j)) as [b Hb]; [lia|].
      rewrite Hb in Hrun. destruct (v =? byte_val b)%Z; [|done].
      destruct (IH (S j) e) as [-> Hbad]; [lia|done|].
      split; [done|]. intros Hwf. apply Hbad. by inversion Hwf.
    + injection Hrun as <-. split; [done|]. intros Hwf.
      inversion Hwf as [|? ? [->|[v Hv']] _]; subst; [done|congruence].
Qed.

Lemma scan_from_raises B toks R count :
  ∀ i e B', scan_from B toks R i count = (Raised e, B') →
    ∃ k, i ≤ k < i + count ∧ match_tokens B k 0 toks = Raised e.
Proof.
  induction count as [|count IH]; intros i e B' Hrun; simpl in Hrun;
    [done|].
  destruct (match_tokens B i 0 toks) as [[|]|e'] eqn:Hm; [done| |].
  - destruct (IH _ _ _ Hrun) as (k & Hk & Hmk). exists k. split; [lia|done].
  - injection Hrun as <- <-. exists i. split; [lia|done].
Qed.

(** X1. Error behaviour of [replace_pattern]. A pattern with more tokens
    than the buffer has bytes gives -1 without any token being read, so
    even a malformed pattern passes. The only exception that can leave the
    call is [ValueError]; it needs a token that is no matcher and a buffer
    at least as long as the pattern, and leaves the buffer unchanged. When
    the first token is no matcher and the buffer is long enough,
    [ValueError] is raised. *)
Theorem replace_pattern_errors (B : list byte) (P : string) (R : list byte) :
  (length B < length (split_space P) →
     replace_pattern B P R = (Returned (-1)%Z, B))
  ∧ (∀ e B', replace_pattern B P R = (Raised e, B') →
       e = ValueError ∧ B' = B
       ∧ ¬ Forall well_formed_matcher (split_space P)
       ∧ length (split_space P) ≤ length B)
  ∧ (∀ tok rest, split_space P = tok :: rest →
       ¬ well_formed_matcher tok →
       length (split_space P) ≤ length B →
       replace_pattern B P R = (Raised ValueError, B)).
Proof.
  unfold replace_pattern. split; [|split].
  - intros Hshort.
    by replace (length B + 1 - length (split_space P)) with 0 by lia.
  - intros e B' Hrun.
    destruct (scan_from_raises _ _ _ _ _ _ _ Hrun) as (k & Hk & Hm).
    destruct (match_tokens_raises B k (split_space P) 0 e) as [-> Hbad];
      [lia|done|].
    destruct (scan_from_shape _ _ _ _ _ _ _ Hrun) as
      [(? & _)|[(e' & _ & ->)|(? & ? & _)]]; try done.
    repeat split; [done|lia].
  - intros tok rest Htoks Hbad Hlen. rewrite Htoks in *.
    simpl in Hlen.
    replace (length B + 1 - length (tok :: rest))
      with (S (length B - length (tok :: rest))) by (simpl; lia).
    cbn [scan_from match_tokens].
    destruct (String.eqb tok "??") eqn:Hwild;
      [apply wildcard_eqb in Hwild; destruct Hbad; by left|].
    destruct (int16 tok) as [v|] eqn:Hv; [destruct Hbad; right; eauto|done].
Qed.

Lemma replace_pattern_errors_witness :
  replace_pattern [x00] "" [x01] = (Raised ValueError, [x00])
  ∧ replace_pattern [x00] "8B zz" [x01] = (Returned (-1)%Z, [x00]).
Proof.
  destruct (replace_pattern_errors [x00] "" [x01]) as (_ & _ & Hfirst).
  destruct (replace_pattern_errors [x00] "8B zz" [x01]) as (Hshort & _).
  split.
  - apply (Hfirst ""%string []); [reflexivity| |simpl; lia].
    intros [Hw|[v Hv]]; discriminate.
  - apply Hshort. simpl. lia.
Defined.

(** ** Matches before and after a replacement *)

Lemma matches_at_in_bounds B toks i :
  toks ≠ [] → matches_at B toks i → i + length toks ≤ length B.
Proof.
  intros Hne Hmatch. destruct toks as [|t toks]; [done|].
  destruct (lookup_lt_is_Some_2 (t :: toks) (length toks)) as [tok Htok];
    [simpl; lia|].
  destruct (Hmatch _ _ Htok) as (b & Hb & _).
  apply lookup_lt_Some in Hb. simpl. lia.
Qed.

Lemma split_space_nonempty P : split_space P ≠ [].
Proof.
  destruct P as [|c P]; simpl; [done|].
  destruct (Ascii.eqb c " "); [done|]. by destruct (split_space P).
Qed.

Lemma matches_at_ext B B' toks j :
  (∀ k, k < length toks → B' !! (j + k) = B !! (j + k)) →
  matches_at B' toks j ↔ matches_at B toks j.
Proof.
  intros Hsame. split; intros Hmatch k tok Hk;
    destruct (Hmatch k tok Hk) as (b & Hb & Hacc); exists b;
    (split; [|done]); apply lookup_lt_Some in Hk.
  - by rewrite <- Hsame.
  - by rewrite Hsame.
Qed.

Lemma leftmost_match_ext B B' toks o :
  (∀ j, matches_at B' toks j ↔ matches_at B toks j) →
  leftmost_match B' toks o → leftmost_match B toks o.
Proof.
  intros Hsame [(-> & Hnone)|(i & -> & Hmatch & Hleft)].
  - left. split; [done|]. intros i. rewrite <- Hsame. apply Hnone.
  - right. exists i. split; [done|]. split; [by apply Hsame|].
    intros k Hk. rewrite <- Hsame. by apply Hleft.
Qed.

(** What a call on a pattern of matchers reports is the leftmost match in
    the buffer it was given. *)
Lemma replace_pattern_leftmost B P R o B' :
  Forall well_formed_matcher (split_space P) →
  replace_pattern B P R = (Returned o, B') →
  leftmost_match B (split_space P) o.
Proof.
  intros Hwf Hrun.
  destruct (replace_pattern_matchers B P R Hwf)
    as [(Hrun' & Hnone)|(i & Hrun' & Hi & Hmatch & Hleft)];
    rewrite Hrun in Hrun'.
  - left. split; [congruence|]. intros i Hmatch.
    apply (Hnone i); [|done].
    by apply matches_at_in_bounds; [apply split_space_nonempty|].
  - right. exists i. split; [congruence|done].
Qed.

(** A replacement written over the start of a match of [toks1] neither
    creates nor destroys a match of [toks2], when the two patterns accept
    no common byte and no window of [toks2] fits between the first [a] and
    the last [c] bytes of the replacement, which [toks2] does not accept. *)
Lemma slice_assign_keeps_matches B toks1 toks2 R i a c :
  matches_at B toks1 i →
  i + length toks1 ≤ length B →
  length R ≤ length toks1 →
  patterns_apart toks1 toks2 →
  1 ≤ a → 1 ≤ c → a + c ≤ length R →
  length R < a + c + length toks2 →
  (∀ k b, R !! k = Some b → k < a ∨ length R - c ≤ k → avoids toks2 b) →
  ∀ j, matches_at (slice_assign B i (i + length R) R) toks2 j
       ↔ matches_at B toks2 j.
Proof.
  intros Hm1 Hi HR Hapart Ha Hc Hac Hfit Hguard j.
  assert (HiB : i ≤ length B) by lia.
  destruct (decide (j + length toks2 ≤ i ∨ i + length R ≤ j))
    as [Hout|Hin].
  - apply matches_at_ext. intros k Hk. destruct Hout.
    + apply slice_assign_lookup_before; [done|lia].
    + apply slice_assign_lookup_after; [done|lia].
  - split; intros Hm2; exfalso.
    + (* the new bytes: a guard byte lies in the window *)
      set (g := if decide (j < i + a) then i `max` j
                else j `max` (i + length R - c)).
      assert (Hg : j ≤ g < j + length toks2 ∧ i ≤ g < i + length R
                   ∧ (g - i < a ∨ length R - c ≤ g - i)).
      { unfold g. destruct (decide (j < i + a)); lia. }
      destruct Hg as (Hgw & Hgr & Hgg).
      destruct (lookup_lt_is_Some_2 R (g - i)) as [b Hb]; [lia|].
      apply (window_misses_avoided _ _ _ g b Hm2); [by eapply Hguard| |done].
      replace g with (i + (g - i)) by lia.
      by rewrite slice_assign_lookup_new by lia.
    + (* the old bytes: all of them belong to the match of [toks1] *)
      set (p := i `max` j).
      destruct (lookup_lt_is_Some_2 toks1 (p - i)) as [tok Htok];
        [unfold p; lia|].
      destruct (Hm1 _ _ Htok) as (b & Hb & Hacc).
      replace (i + (p - i)) with p in Hb by (unfold p; lia).
      apply (window_misses_avoided _ _ _ p b Hm2);
        [by eapply Hapart|done|unfold p; lia].
Qed.

(** ** The three signatures do not interfere *)

Lemma accepts_exact tok v b :
  int16 tok = Some v → tok ≠ "??"%string → matcher_accepts tok b →
  Byte.of_N (Z.to_N v) = Some b.
Proof.
  intros Hv Hne [->|Hacc]; [done|].
  rewrite Hv in Hacc. injection Hacc as ->.
  unfold byte_val. rewrite N2Z.id. apply Byte.of_to_N.
Qed.

(** Decides [avoids] on a literal pattern and a literal byte. *)
Ltac avoids_literal :=
  repeat (constructor 2; [intros [?|?]; discriminate|]); constructor 1.

(** Decides [patterns_apart] on two literal patterns of exact matchers. *)
Ltac apart_literal :=
  intros k tok b Hk Hacc; simpl in Hk;
  repeat (destruct k as [|k];
          [injection Hk as <-;
           match type of Hacc with
           | matcher_accepts ?t _ =>
               pose proof (accepts_exact t _ b eq_refl
                             ltac:(discriminate) Hacc) as Hb;
               vm_compute in Hb; injection Hb as <-
           end;
           simpl; avoids_literal
          |simpl in Hk]);
  discriminate Hk.

Lemma get_set_apart :
  patterns_apart (split_space get_pattern) (split_space set_pattern).
Proof. unfold get_pattern, set_pattern. apart_literal. Qed.

Lemma get_status_apart :
  patterns_apart (split_space get_pattern) (split_space status_pattern).
Proof. unfold get_pattern, status_pattern. apart_literal. Qed.

Lemma set_status_apart :
  patterns_apart (split_space set_pattern) (split_space status_pattern).
Proof. unfold set_pattern, status_pattern. apart_literal. Qed.

Lemma status_pattern_avoids_set_site :
  avoids (split_space status_pattern) x41
  ∧ avoids (split_space status_pattern) xc7
  ∧ avoids (split_space status_pattern) x40
  ∧ avoids (split_space status_pattern) x04.
Proof. unfold status_pattern. simpl. repeat split; avoids_literal. Qed.

(** The first and the last byte of the [get_raid] replacement are accepted
    by no matcher of a pattern that avoids B8 and 90. *)
Lemma get_replacement_guards toks raid_bytes :
  length raid_bytes = 4 → avoids toks xb8 → avoids toks x90 →
  ∀ k b, get_replacement raid_bytes !! k = Some b →
    k < 1 ∨ length (get_replacement raid_bytes) - 1 ≤ k → avoids toks b.
Proof.
  intros Hlen Hb8 H90 k b Hk Hedge.
  destruct raid_bytes as [|b0 [|b1 [|b2 [|b3 [|? ?]]]]]; try done.
  simpl in Hedge.
  destruct k as [|[|[|[|[|[|k]]]]]]; simpl in Hk; try lia;
    try discriminate Hk; by injection Hk as <-.
Qed.

Lemma set_replacement_guards raid_bytes :
  length raid_bytes = 4 →
  ∀ k b, set_replacement raid_bytes !! k = Some b →
    k < 4 ∨ length (set_replacement raid_bytes) - 3 ≤ k →
    avoids (split_space status_pattern) b.
Proof.
  intros Hlen k b Hk Hedge.
  destruct raid_bytes as [|b0 [|b1 [|b2 [|b3 [|? ?]]]]]; try done.
  simpl in Hedge.
  destruct status_pattern_avoids_set_site as (H41 & Hc7 & H40 & H04).
  destruct status_pattern_avoids as [_ H90].
  destruct k as [|[|[|[|[|[|[|[|[|[|[|k]]]]]]]]]]]; simpl in Hk; try lia;
    try discriminate Hk; by injection Hk as <-.
Qed.

(** One replacement of the run, seen from another pattern. *)
Lemma replace_pattern_keeps_matches B P R o B' toks2 a c :
  Forall well_formed_matcher (split_space P) →
  length R ≤ length (split_space P) →
  patterns_apart (split_space P) toks2 →
  1 ≤ a → 1 ≤ c → a + c ≤ length R →
  length R < a + c + length toks2 →
  (∀ k b, R !! k = Some b → k < a ∨ length R - c ≤ k → avoids toks2 b) →
  replace_pattern B P R = (Returned o, B') →
  ∀ j, matches_at B' toks2 j ↔ matches_at B toks2 j.
Proof.
  intros Hwf HR Hapart Ha Hc Hac Hfit Hguard Hrun.
  destruct (replace_pattern_matchers B P R Hwf)
    as [(Hrun' & _)|(i & Hrun' & Hi & Hmatch & _)];
    rewrite Hrun in Hrun'.
  - by replace B' with B by congruence.
  - replace B' with (slice_assign B i (i + length R) R) by congruence.
    by apply (slice_assign_keeps_matches B (split_space P) toks2 R i a c).
Qed.

(** One replacement of the run, seen from the buffer: the length stays, and
    so does every byte outside the region written at the offset. *)
Lemma replace_pattern_region B P R o B' :
  Forall well_formed_matcher (split_space P) →
  length R ≤ length (split_space P) →
  replace_pattern B P R = (Returned o, B') →
  length B' = length B
  ∧ ∀ k, ¬ in_region o (length R) k → B' !! k = B !! k.
Proof.
  intros Hwf HR Hrun.
  destruct (replace_pattern_matchers B P R Hwf)
    as [(Hrun' & _)|(i & Hrun' & Hi & _)];
    rewrite Hrun in Hrun'.
  - by replace B' with B by congruence.
  - replace B' with (slice_assign B i (i + length R) R) by congruence.
    replace o with (Z.of_nat i) by congruence.
    split; [rewrite slice_assign_length by lia; lia|].
    intros k Hk. unfold in_region in Hk.
    destruct (decide (k < i)).
    + apply slice_assign_lookup_before; [lia|done].
    + apply slice_assign_lookup_after; lia.
Qed.

Lemma replacement_lengths raid_bytes :
  length raid_bytes = 4 →
  length (get_replacement raid_bytes) = 6
  ∧ length (set_replacement raid_bytes) = 11
  ∧ length status_replacement = 4
  ∧ length (split_space get_pattern) = 6
  ∧ length (split_space set_pattern) = 15
  ∧ length (split_space status_pattern) = 6.
Proof.
  intros Hlen. unfold get_replacement, set_replacement.
  rewrite !length_app, Hlen. done.
Qed.

(** The offsets of one run are the leftmost occurrences of the three
    signatures in the buffer as it was read, or -1. *)
Lemma three_patches_leftmost raid_bytes B o1 o2 o3 B1 B2 B3 :
  length raid_bytes = 4 →
  three_patches raid_bytes B o1 o2 o3 B1 B2 B3 →
  leftmost_match B (split_space get_pattern) o1
  ∧ leftmost_match B (split_space set_pattern) o2
  ∧ leftmost_match B (split_space status_pattern) o3.
Proof.
  intros Hlen (H1 & H2 & H3).
  destruct (replacement_lengths _ Hlen) as (Lg & Ls & Lt & Ng & Ns & Nt).
  destruct set_pattern_avoids as [Sb8 S90].
  destruct status_pattern_avoids as [Tb8 T90].
  assert (Hset : ∀ j, matches_at B1 (split_space set_pattern) j
                      ↔ matches_at B (split_space set_pattern) j).
  { eapply (replace_pattern_keeps_matches B get_pattern _ o1 B1 _ 1 1);
      try exact H1; try apply get_pattern_matchers; try apply get_set_apart;
      try (by apply get_replacement_guards); lia. }
  assert (Hst1 : ∀ j, matches_at B1 (split_space status_pattern) j
                      ↔ matches_at B (split_space status_pattern) j).
  { eapply (replace_pattern_keeps_matches B get_pattern _ o1 B1 _ 1 1);
      try exact H1; try apply get_pattern_matchers;
      try apply get_status_apart;
      try (by apply get_replacement_guards); lia. }
  assert (Hst2 : ∀ j, matches_at B2 (split_space status_pattern) j
                      ↔ matches_at B1 (split_space status_pattern) j).
  { eapply (replace_pattern_keeps_matches B1 set_pattern _ o2 B2 _ 4 3);
      try exact H2; try apply set_pattern_matchers;
      try apply set_status_apart;
      try (by apply set_replacement_guards); lia. }
  split; [|split].
  - eapply replace_pattern_leftmost; [apply get_pattern_matchers|done].
  - apply (leftmost_match_ext B B1); [done|].
    eapply replace_pattern_leftmost; [apply set_pattern_matchers|done].
  - apply (leftmost_match_ext B B2);
      [intros j; by rewrite Hst2, Hst1|].
    eapply replace_pattern_leftmost; [apply status_pattern_matchers|done].
Qed.

Lemma leftmost_match_found B P o :
  leftmost_match B (split_space P) o → (0 ≤ o)%Z ↔ signature_in B P.
Proof.
  intros [(-> & Hnone)|(i & -> & Hmatch & _)]; split.
  - lia.
  - intros [i Hi]. by destruct (Hnone i).
  - intros _. by exists i.
  - lia.
Qed.

(** X2. On a readable and writable file and a parameter of [[0, 2^32)],
    [patch_executable] returns a result whose success flag is set exactly
    when each of the three signatures occurs in the file as it is read; the
    three offsets behind the result are the leftmost occurrences in that
    file (or -1): no patch creates or destroys a match of a later one. *)
Theorem patch_success_iff_signatures (σ : gmap string file) (path : string)
    (f : file) (raid_index : Z) :
  σ !! path = Some f → readable f = true → writable f = true →
  (0 ≤ raid_index < 2 ^ 32)%Z →
  ∃ o1 o2 o3 σ',
    patch_executable path raid_index σ
      = (Returned (three_results o1 o2 o3), σ')
    ∧ leftmost_match (content f) (split_space get_pattern) o1
    ∧ leftmost_match (content f) (split_space set_pattern) o2
    ∧ leftmost_match (content f) (split_space status_pattern) o3
    ∧ (success (three_results o1 o2 o3) = true
       ↔ signature_in (content f) get_pattern
         ∧ signature_in (content f) set_pattern
         ∧ signature_in (content f) status_pattern).
Proof.
  intros Hf Hr Hw Hx.
  pose proof (to_bytes4_little_in_range _ Hx) as Hser.
  destruct (to_bytes4_little_returned _ _ Hser) as (_ & Hlen & _).
  destruct (patch_executable_run σ path f raid_index _ Hf Hr Hser)
    as (o1 & o2 & o3 & B1 & B2 & B3 & Hthree & Hrun).
  destruct (three_patches_leftmost _ _ _ _ _ _ _ _ Hlen Hthree)
    as (L1 & L2 & L3).
  exists o1, o2, o3.
  exists (if success (three_results o1 o2 o3)
          then <[path := mk_file B3 true true]> σ else σ).
  split; [rewrite Hrun, Hw; by destruct (success _)|].
  repeat (split; [done|]).
  rewrite three_results_success.
  by rewrite (leftmost_match_found _ _ _ L1), (leftmost_match_found _ _ _ L2),
    (leftmost_match_found _ _ _ L3).
Qed.

Lemma patch_success_iff_signatures_witness :
  ∃ o1 o2 o3 σ',
    patch_executable "game.exe" 5 (one_file stale_image)
      = (Returned (three_results o1 o2 o3), σ')
    ∧ leftmost_match stale_image (split_space get_pattern) o1
    ∧ leftmost_match stale_image (split_space set_pattern) o2
    ∧ leftmost_match stale_image (split_space status_pattern) o3
    ∧ (success (three_results o1 o2 o3) = true
       ↔ signature_in stale_image get_pattern
         ∧ signature_in stale_image set_pattern
         ∧ signature_in stale_image status_pattern).
Proof.
  apply (patch_success_iff_signatures (one_file stale_image) "game.exe"
           (mk_file stale_image true true) 5);
    [reflexivity|reflexivity|reflexivity|lia].
Defined.

(** ** What a successful run writes *)

Lemma three_results_offsets o1 o2 o3 :
  (0 ≤ o1 ∧ 0 ≤ o2 ∧ 0 ≤ o3)%Z →
  offsets (three_results o1 o2 o3) !! "get_raid"%string = Some o1
  ∧ offsets (three_results o1 o2 o3) !! "set_raid"%string = Some o2
  ∧ offsets (three_results o1 o2 o3) !! "raid_status"%string = Some o3.
Proof.
  intros (H1 & H2 & H3). unfold three_results, record_offset.
  destruct (Z.ltb_spec o1 0); [lia|]. destruct (Z.ltb_spec o2 0); [lia|].
  destruct (Z.ltb_spec o3 0); [lia|]. simpl. split; [|split].
  - rewrite lookup_insert_ne by done. rewrite lookup_insert_ne by done.
    by rewrite lookup_insert_eq.
  - rewrite lookup_insert_ne by done. by rewrite lookup_insert_eq.
  - by rewrite lookup_insert_eq.
Qed.

(** X3. A successful [patch_executable] writes a file of the same length
    as the one it read, and the two differ at most in the 6 bytes at the
    [get_raid] offset, the 11 bytes at the [set_raid] offset and the 4 bytes
    at the [raid_status] offset that the result reports. *)
Theorem patch_changes_only_regions (σ σ' : gmap string file) (path : string)
    (f : file) (raid_index : Z) (res : results) :
  σ !! path = Some f →
  patch_executable path raid_index σ = (Returned res, σ') →
  success res = true →
  ∃ patched o1 o2 o3,
    σ' !! path = Some (mk_file patched true true)
    ∧ offsets res !! "get_raid"%string = Some o1
    ∧ offsets res !! "set_raid"%string = Some o2
    ∧ offsets res !! "raid_status"%string = Some o3
    ∧ length patched = length (content f)
    ∧ ∀ k, ¬ in_region o1 6 k → ¬ in_region o2 11 k →
           ¬ in_region o3 4 k → patched !! k = content f !! k.
Proof.
  intros Hf Hrun Hs.
  destruct (patch_executable_succeeded _ _ _ _ _ Hrun Hs)
    as (f' & rb & o1 & o2 & o3 & B1 & B2 & B3 & Hf' & Hr & Hw & Hser
        & (H1 & H2 & H3) & Hpos & -> & ->).
  rewrite Hf in Hf'. injection Hf' as <-.
  destruct (to_bytes4_little_returned _ _ Hser) as (_ & Hlen & _).
  destruct (replacement_lengths _ Hlen) as (Lg & Ls & Lt & Ng & Ns & Nt).
  assert (Rg : length (get_replacement rb)
               ≤ length (split_space get_pattern)) by lia.
  assert (Rs : length (set_replacement rb)
               ≤ length (split_space set_pattern)) by lia.
  assert (Rt : length status_replacement
               ≤ length (split_space status_pattern)) by lia.
  destruct (replace_pattern_region _ _ _ _ _ get_pattern_matchers Rg H1)
    as [Hl1 Hk1].
  destruct (replace_pattern_region _ _ _ _ _ set_pattern_matchers Rs H2)
    as [Hl2 Hk2].
  destruct (replace_pattern_region _ _ _ _ _ status_pattern_matchers Rt H3)
    as [Hl3 Hk3].
  destruct (three_results_offsets _ _ _ Hpos) as (Ho1 & Ho2 & Ho3).
  exists B3, o1, o2, o3. split; [by rewrite lookup_insert_eq|].
  repeat (split; [done|]). split; [congruence|].
  intros k Hn1 Hn2 Hn3.
  rewrite Hk3 by by rewrite Lt. rewrite Hk2 by by rewrite Ls.
  apply Hk1. by rewrite Lg.
Qed.

Lemma patch_changes_only_regions_witness :
  ∃ σ' res patched o1 o2 o3,
    patch_executable "game.exe" 5 (one_file decoy_image) = (Returned res, σ')
    ∧ σ' !! "game.exe"%string = Some (mk_file patched true true)
    ∧ offsets res !! "get_raid"%string = Some o1
    ∧ offsets res !! "set_raid"%string = Some o2
    ∧ offsets res !! "raid_status"%string = Some o3
    ∧ length patched = length decoy_image
    ∧ ∀ k, ¬ in_region o1 6 k → ¬ in_region o2 11 k →
           ¬ in_region o3 4 k → patched !! k = decoy_image !! k.
Proof.
  eexists _, _.
  destruct (patch_changes_only_regions (one_file decoy_image) _ "game.exe"
              (mk_file decoy_image true true) 5 _ eq_refl
              ltac:(vm_compute; reflexivity) eq_refl)
    as (patched & o1 & o2 & o3 & H).
  exists patched, o1, o2, o3. split; [vm_compute; reflexivity|exact H].
Defined.



(** ** The verifier and the detector, stated on the bytes *)

Lemma from_bytes_four a b c d :
  to_bytes4_little (from_bytes_little [a; b; c; d]) = Returned [a; b; c; d].
Proof.
  assert (Hval : ∀ x, (0 ≤ byte_val x < 256)%Z).
  { intros x. unfold byte_val. pose proof (Byte.to_N_bounded x). lia. }
  assert (Hbyte : ∀ z x, (z mod 256 = byte_val x)%Z → byte_of_Z z = x).
  { intros z x Hz. unfold byte_of_Z. rewrite Hz. unfold byte_val.
    by rewrite N2Z.id, Byte.of_to_N. }
  pose proof (Hval a). pose proof (Hval b). pose proof (Hval c).
  pose proof (Hval d). simpl.
  rewrite to_bytes4_little_in_range
    by (change (2 ^ 32)%Z with 4294967296%Z; lia).
  change (2 ^ 8)%Z with 256%Z. change (2 ^ 16)%Z with 65536%Z.
  change (2 ^ 24)%Z with 16777216%Z.
  f_equal. repeat f_equal; apply Hbyte; Z.div_mod_to_equations; lia.
Qed.

Lemma slice_four B i a b c d :
  B !! (i + 1) = Some a → B !! (i + 2) = Some b →
  B !! (i + 3) = Some c → B !! (i + 4) = Some d →
  slice B (i + 1) (i + 5) = [a; b; c; d].
Proof.
  intros Ha Hb Hc Hd.
  unfold slice. replace (i + 5 - (i + 1)) with 4 by lia.
  apply list_eq. intros k.
  destruct (decide (k < 4)) as [Hk|Hk].
  - rewrite lookup_take_lt, lookup_drop by done.
    destruct k as [|[|[|[|k]]]]; [| | | |lia].
    + by rewrite Nat.add_0_r.
    + by replace (i + 1 + 1) with (i + 2) by lia.
    + by replace (i + 1 + 2) with (i + 3) by lia.
    + by replace (i + 1 + 3) with (i + 4) by lia.
  - rewrite lookup_take_ge by lia. symmetry.
    apply lookup_ge_None_2. simpl. lia.
Qed.

Lemma detect_at_window B i v :
  detect_at B i = Returned (Some v) ↔ window_at B i v.
Proof.
  unfold detect_at, window_at. split.
  - destruct (B !! i) as [b0|]; [|done].
    destruct (Byte.eqb b0 xb8) eqn:H0; [|done].
    apply Byte.byte_dec_bl in H0. subst b0.
    destruct (B !! (i + 5)) as [b5|]; [|done].
    destruct (Byte.eqb b5 x90) eqn:H5; [|done].
    apply Byte.byte_dec_bl in H5. subst b5.
    destruct (_ && _)%bool eqn:Hrange; [|done]. intros [= <-].
    apply andb_true_iff in Hrange as [?%Z.leb_le ?%Z.leb_le]. done.
  - intros (-> & -> & Hv & Hrange). simpl. rewrite Hv.
    destruct (Z.leb_spec 1 v); [|lia]. by destruct (Z.leb_spec v 38); [|lia].
Qed.

Lemma window_at_in_bounds B i v : window_at B i v → i + 5 < length B.
Proof. intros (_ & H5 & _). by apply lookup_lt_Some in H5. Qed.

(** A qualifying window is the six bytes the verifier searches for. *)
Lemma window_at_occurs B i v :
  window_at B i v →
  ∃ raid_bytes, to_bytes4_little v = Returned raid_bytes
                ∧ occurs_at (get_replacement raid_bytes) B i.
Proof.
  intros (H0 & H5 & Hv & _).
  pose proof (lookup_lt_Some _ _ _ H5) as Hlen.
  destruct (lookup_lt_is_Some_2 B (i + 1)) as [a Ha]; [lia|].
  destruct (lookup_lt_is_Some_2 B (i + 2)) as [b Hb]; [lia|].
  destruct (lookup_lt_is_Some_2 B (i + 3)) as [c Hc]; [lia|].
  destruct (lookup_lt_is_Some_2 B (i + 4)) as [d Hd]; [lia|].
  rewrite (slice_four B i a b c d) in Hv by done.
  exists [a; b; c; d]. split; [rewrite <- Hv; apply from_bytes_four|].
  intros [|[|[|[|[|[|k]]]]]] x Hk; simpl in Hk; try discriminate Hk;
    injection Hk as <-; [by rewrite Nat.add_0_r|done..].
Qed.

Lemma verify_patch_true_inv σ path x :
  verify_patch path x σ = (Returned true, σ) →
  ∃ f raid_bytes i,
    σ !! path = Some f ∧ readable f = true
    ∧ to_bytes4_little x = Returned raid_bytes
    ∧ occurs_at (get_replacement raid_bytes) (content f) i.
Proof.
  intros Hv.
  destruct (σ !! path) as [f|] eqn:Hf;
    [|rewrite verify_patch_unreadable in Hv by eauto; done].
  destruct (readable f) eqn:Hr;
    [|rewrite verify_patch_unreadable in Hv by eauto; done].
  destruct (to_bytes4_little x) as [rb|e] eqn:Hser.
  - rewrite (verify_patch_readable σ path f _ rb) in Hv by done.
    injection Hv as Hin. apply bytes_in_occurs in Hin as [i Hi].
    by exists f, rb, i.
  - unfold verify_patch, try_except, mbind, M_bind, read_bytes, lift in Hv.
    by rewrite Hf, Hr, Hser in Hv.
Qed.

Lemma verify_patch_true_intro σ path x f raid_bytes i :
  σ !! path = Some f → readable f = true →
  to_bytes4_little x = Returned raid_bytes →
  occurs_at (get_replacement raid_bytes) (content f) i →
  verify_patch path x σ = (Returned true, σ).
Proof.
  intros Hf Hr Hser Hocc.
  rewrite (verify_patch_readable σ path f _ raid_bytes) by done.
  replace (bytes_in _ _) with true; [done|].
  symmetry. apply bytes_in_occurs. by exists i.
Qed.

Lemma detect_some_window σ path f v :
  σ !! path = Some f → readable f = true →
  detect_current_patch path σ = (Returned (Some v), σ) →
  ∃ i, window_at (content f) i v.
Proof.
  intros Hf Hr Hd.
  destruct (detect_current_patch_readable σ path f Hf Hr) as [Heq _].
  rewrite Heq in Hd.
  destruct (detect_scan_first (content f) (length (content f) - 5) 0)
    as [(Hrun & _)|(k & w & Hrun & _ & Hat & _)]; [lia| |];
    rewrite Hrun in Hd; [done|].
  injection Hd as <-. exists k. by apply detect_at_window.
Qed.

(** X5. [verify_patch] returns [True] exactly when the file can be read,
    the parameter lies in [[0, 2^32)], and the file holds, at some offset,
    B8, the four little-endian bytes of the parameter and 90. In
    particular it returns [False] for every parameter outside [[0, 2^32)],
    whatever the file. *)
Theorem verify_patch_true_iff (σ : gmap string file) (path : string)
    (raid_index : Z) :
  (verify_patch path raid_index σ = (Returned true, σ)
   ↔ ∃ f raid_bytes i,
       σ !! path = Some f ∧ readable f = true
       ∧ to_bytes4_little raid_index = Returned raid_bytes
       ∧ occurs_at ([xb8] ++ raid_bytes ++ [x90]) (content f) i)
  ∧ ((raid_index < 0 ∨ 2 ^ 32 ≤ raid_index)%Z →
       verify_patch path raid_index σ = (Returned false, σ)).
Proof.
  split; [split|].
  - apply verify_patch_true_inv.
  - intros (f & rb & i & Hf & Hr & Hser & Hocc).
    by eapply verify_patch_true_intro.
  - intros Hout.
    unfold verify_patch, try_except, mbind, M_bind, read_bytes, lift,
      mret, M_ret.
    destruct (σ !! path) as [f|]; [|done].
    destruct (readable f); [|done].
    by rewrite to_bytes4_little_out_of_range.
Qed.

Lemma verify_patch_true_iff_witness :
  verify_patch "game.exe" (-1) (one_file clean_image)
  = (Returned false, one_file clean_image).
Proof.
  destruct (verify_patch_true_iff (one_file clean_image) "game.exe" (-1))
    as [_ Hout].
  apply Hout. lia.
Defined.

(** X6. On a readable file [detect_current_patch] returns [v] exactly when
    [v] is decoded at the first offset that holds B8, four bytes that
    decode into 1..38, and 90; it returns [None] exactly when no offset
    holds such a window, as in every file shorter than six bytes. *)
Theorem detect_current_patch_first_window (σ : gmap string file)
    (path : string) (f : file) :
  σ !! path = Some f → readable f = true →
  (∀ v, detect_current_patch path σ = (Returned (Some v), σ)
        ↔ ∃ i, window_at (content f) i v
               ∧ ∀ k v', k < i → ¬ window_at (content f) k v')
  ∧ (detect_current_patch path σ = (Returned None, σ)
     ↔ ∀ i v, ¬ window_at (content f) i v)
  ∧ (length (content f) < 6 →
     detect_current_patch path σ = (Returned None, σ)).
Proof.
  intros Hf Hr.
  destruct (detect_current_patch_readable σ path f Hf Hr) as [-> _].
  set (B := content f).
  assert (Hnone_at : ∀ k, detect_at B k = Returned None →
                          ∀ v, ¬ window_at B k v).
  { intros k Hk v Hw. apply detect_at_window in Hw. congruence. }
  destruct (detect_scan_first B (length B - 5) 0)
    as [(Hrun & Hnone)|(k & v & Hrun & Hk & Hat & Hv & Hfirst)]; [lia| |];
    rewrite Hrun.
  - assert (Hno : ∀ i v, ¬ window_at B i v).
    { intros i v Hw. pose proof (window_at_in_bounds _ _ _ Hw).
      assert (Hi : 0 ≤ i < 0 + (length B - 5)) by lia.
      exact (Hnone_at i (Hnone i Hi) v Hw). }
    split; [|split; [|done]].
    + intros v. split; [done|]. intros (i & Hw & _). by destruct (Hno i v).
    + done.
  - apply detect_at_window in Hat.
    split; [|split].
    + intros v'. split.
      * intros [= <-]. exists k. split; [done|]. intros k' w Hk'.
        apply Hnone_at, Hfirst. lia.
      * intros (i & Hw & Hleft).
        destruct (Nat.lt_trichotomy i k) as [Hlt|[->|Hgt]].
        -- assert (Hi : 0 ≤ i < k) by lia.
           by destruct (Hnone_at i (Hfirst i Hi) v').
        -- destruct Hat as (_ & _ & <- & _), Hw as (_ & _ & <- & _). done.
        -- by destruct (Hleft k v Hgt).
    + split; [done|]. intros Hno. by destruct (Hno k v).
    + intros Hshort. pose proof (window_at_in_bounds _ _ _ Hat). lia.
Qed.

Lemma detect_current_patch_first_window_witness :
  detect_current_patch "game.exe" (one_file [xb8; x07; x00; x00; x90])
  = (Returned None, one_file [xb8; x07; x00; x00; x90]).
Proof.
  destruct (detect_current_patch_first_window
              (one_file [xb8; x07; x00; x00; x90]) "game.exe"
              (mk_file [xb8; x07; x00; x00; x90] true true)
              eq_refl eq_refl) as (_ & _ & Hshort).
  apply Hshort. simpl. lia.
Defined.

(** X7. The detector and the verifier agree: a value returned by
    [detect_current_patch] is confirmed by [verify_patch] on the same
    file. *)
Theorem detect_implies_verify (σ : gmap string file) (path : string)
    (v : Z) :
  detect_current_patch path σ = (Returned (Some v), σ) →
  verify_patch path v σ = (Returned true, σ).
Proof.
  intros Hd.
  destruct (σ !! path) as [[data [|] w|]|] eqn:Hf.
  2:{ rewrite detect_current_patch_unreadable in Hd by eauto. done. }
  2:{ rewrite detect_current_patch_no_access in Hd by done. done. }
  2:{ rewrite detect_current_patch_unreadable in Hd by eauto. done. }
  set (f := mk_file data true w) in *.
  assert (Hr : readable f = true) by done.
  destruct (detect_some_window σ path f v Hf Hr Hd) as [i Hw].
  destruct (window_at_occurs _ _ _ Hw) as (rb & Hser & Hocc).
  by eapply verify_patch_true_intro.
Qed.

Lemma detect_implies_verify_witness :
  verify_patch "game.exe" 7 (one_file decoy_image)
  = (Returned true, one_file decoy_image).
Proof.
  apply (detect_implies_verify (one_file decoy_image) "game.exe" 7).
  vm_compute. reflexivity.
Defined.

(** X8. Conversely, when [verify_patch] confirms a parameter of 1..38, the
    detector reports a patch: it returns some value of 1..38 (the same
    parameter, unless an earlier window decodes to another one). *)
Theorem verify_implies_detect (σ : gmap string file) (path : string)
    (raid_index : Z) :
  (1 ≤ raid_index ≤ 38)%Z →
  verify_patch path raid_index σ = (Returned true, σ) →
  ∃ v, detect_current_patch path σ = (Returned (Some v), σ)
       ∧ (1 ≤ v ≤ 38)%Z.
Proof.
  intros Hx Hv.
  apply verify_patch_true_inv in Hv as (f & rb & i & Hf & Hr & Hser & Hocc).
  destruct (to_bytes4_little_returned _ _ Hser) as (_ & Hlen & Hback).
  destruct (detect_at_site _ _ _ Hlen Hocc) as [Hi Hat].
  rewrite Hback in Hat.
  destruct (Z.leb_spec 1 raid_index); [|lia].
  destruct (Z.leb_spec raid_index 38); [|lia]. simpl in Hat.
  destruct (detect_current_patch_readable σ path f Hf Hr) as [-> _].
  destruct (detect_scan_first (content f) (length (content f) - 5) 0)
    as [(_ & Hnone)|(k & v & Hscan & _ & _ & Hrange & _)]; [lia| |].
  - rewrite Hnone in Hat by lia. done.
  - exists v. by rewrite Hscan.
Qed.

Lemma verify_implies_detect_witness :
  ∃ v, detect_current_patch "game.exe"
         (one_file [x00; xb8; x09; x00; x00; x00; x90])
       = (Returned (Some v), one_file [x00; xb8; x09; x00; x00; x00; x90])
       ∧ (1 ≤ v ≤ 38)%Z.
Proof.
  apply (verify_implies_detect
           (one_file [x00; xb8; x09; x00; x00; x00; x90]) "game.exe" 9);
    [lia|vm_compute; reflexivity].
Defined.

(** ** The raid table *)

Lemma dict_get_Some d k v : dict_get d k = Some v → (k, v) ∈ d.
Proof.
  induction d as [|[k' v'] d IH]; simpl; [done|].
  destruct (Z.eqb_spec k' k) as [->|_].
  - intros [= ->]. by apply elem_of_cons; left.
  - intros Hget. apply elem_of_cons. right. by apply IH.
Qed.

Lemma RAID_BOSSES_keys :
  Forall (λ item, (1 ≤ item.1 ≤ 38)%Z) RAID_BOSSES.
Proof.
  unfold RAID_BOSSES.
  repeat (constructor 2; [simpl; lia|]). constructor 1.
Qed.

Lemma RAID_BOSSES_lookup_nat n :
  1 ≤ n ≤ 38 → ∃ name, dict_get RAID_BOSSES (Z.of_nat n) = Some name.
Proof.
  intros [Hpos Hle].
  do 39 (destruct n as [|n]; [try lia; by eexists|]). lia.
Qed.

Lemma RAID_BOSSES_lookup x :
  (1 ≤ x ≤ 38)%Z → ∃ name, dict_get RAID_BOSSES x = Some name.
Proof.
  intros Hx. rewrite <- (Z2Nat.id x) by lia.
  apply RAID_BOSSES_lookup_nat. lia.
Qed.

Lemma dict_get_elem_of d k v :
  NoDup (d.*1) → (k, v) ∈ d → dict_get d k = Some v.
Proof.
  induction d as [|[k' v'] d IH]; simpl; intros Hnd Hin;
    [by apply elem_of_nil in Hin|].
  apply NoDup_cons in Hnd as [Hk' Hnd].
  apply elem_of_cons in Hin as [[= -> ->]|Hin].
  - by rewrite Z.eqb_refl.
  - destruct (Z.eqb_spec k' k) as [->|_]; [|by apply IH].
    destruct Hk'. apply list_elem_of_fmap. by exists (k, v).
Qed.

Lemma RAID_BOSSES_distinct : NoDup (RAID_BOSSES.*1).
Proof. apply (bool_decide_unpack (NoDup (RAID_BOSSES.*1))). vm_compute. exact I. Qed.

Lemma dict_get_in_range x name :
  dict_get RAID_BOSSES x = Some name → (1 ≤ x ≤ 38)%Z.
Proof.
  intros Hget. apply dict_get_Some in Hget.
  by apply (proj1 (Forall_forall _ _) RAID_BOSSES_keys) in Hget.
Qed.

(** X9. [is_valid_raid_index] accepts exactly the integers 1..38: the keys
    of [RAID_BOSSES] are these and no others. *)
Theorem is_valid_raid_index_range (raid_index : Z) :
  is_valid_raid_index raid_index = true ↔ (1 ≤ raid_index ≤ 38)%Z.
Proof.
  unfold is_valid_raid_index. rewrite bool_decide_eq_true. split.
  - intros [name Hget]. by eapply dict_get_in_range.
  - intros Hx. destruct (RAID_BOSSES_lookup _ Hx) as [name ->]. by eexists.
Qed.



Lemma get_all_raids_value : get_all_raids = RAID_BOSSES.
Proof. vm_compute. reflexivity. Qed.

(** X11. [get_all_raids] lists the raids by strictly increasing index, and
    a pair [(idx, name)] is in the list exactly when [idx] is one of 1..38
    and [name] is [get_raid_name idx]: the menu shows each valid raid once,
    under the name the lookup gives. *)
Theorem get_all_raids_listing :
  StronglySorted (λ a b, (a.1 < b.1)%Z) get_all_raids
  ∧ length get_all_raids = 38
  ∧ ∀ idx name,
      (idx, name) ∈ get_all_raids
      ↔ (1 ≤ idx ≤ 38)%Z ∧ name = get_raid_name idx.
Proof.
  rewrite get_all_raids_value. split; [|split; [done|]].
  - unfold RAID_BOSSES.
    repeat (constructor 2;
            [|repeat (constructor 2; [simpl; lia|]); constructor 1]).
    constructor 1.
  - intros idx name. split.
    + intros Hin.
      pose proof (proj1 (Forall_forall _ _) RAID_BOSSES_keys _ Hin) as Hk.
      simpl in Hk. split; [done|]. unfold get_raid_name.
      by rewrite (dict_get_elem_of _ _ _ RAID_BOSSES_distinct Hin).
    + intros [Hidx ->]. destruct (RAID_BOSSES_lookup _ Hidx) as [name Hget].
      unfold get_raid_name. rewrite Hget. by apply dict_get_Some.
Qed.

(** X12. Whatever [detect_current_patch] returns is a valid raid index and
    is not zero, so a caller that tests it for truth and then looks up its
    name gets a name of the table, never the ["Unknown Raid"] default. *)
Theorem detected_raid_is_listed (σ : gmap string file) (path : string)
    (v : Z) :
  detect_current_patch path σ = (Returned (Some v), σ) →
  v ≠ 0%Z ∧ is_valid_raid_index v = true
  ∧ (v, get_raid_name v) ∈ RAID_BOSSES.
Proof.
  intros Hd.
  destruct (detect_current_patch_ends _ _ _ _ Hd)
    as [_ [(r & [= <-] & Hrange)|[? _]]]; [|done].
  specialize (Hrange v eq_refl).
  destruct (RAID_BOSSES_lookup _ Hrange) as [name Hget].
  split; [lia|]. split.
  - unfold is_valid_raid_index. rewrite bool_decide_eq_true. by eexists.
  - unfold get_raid_name. rewrite Hget. by apply dict_get_Some.
Qed.

Lemma detected_raid_is_listed_witness :
  7%Z ≠ 0%Z ∧ is_valid_raid_index 7 = true
  ∧ (7%Z, get_raid_name 7) ∈ RAID_BOSSES.
Proof.
  apply (detected_raid_is_listed (one_file decoy_image) "game.exe" 7).
  vm_compute. reflexivity.
Defined.

(** ** Preparing the patched executable *)

Lemma without_file_lookup path σ p :
  p ≠ path → without_file path σ !! p = σ !! p.
Proof.
  intros Hp. unfold without_file.
  destruct (σ !! path) as [g|]; [|done].
  destruct (writable g); [|done]. by rewrite lookup_delete_ne.
Qed.

Lemma without_file_at path σ :
  without_file path σ !! path = None
  ∨ (without_file path σ = σ
     ∧ ∃ g, σ !! path = Some g ∧ writable g = false).
Proof.
  unfold without_file. destruct (σ !! path) as [g|] eqn:Hg; [|by left].
  destruct (writable g) eqn:Hw; [left; by rewrite lookup_delete_eq|].
  right. eauto.
Qed.

Lemma create_or_update_run σ clean patched :
  create_or_update_patched_exe clean patched σ
  = match σ !! clean with
    | None => (Returned (Failed "Original game executable not found"), σ)
    | Some no_access => (Raised OSError, σ)
    | Some (mk_file _ _ _) =>
        match σ !! patched with
        | Some no_access => (Raised OSError, σ)
        | _ =>
            match copy2 clean patched (without_file patched σ) with
            | (Returned _, σ2) => (Returned (Done patched), σ2)
            | (Raised _, σ2) =>
                (Returned (Failed "Failed to create patched exe"), σ2)
            end
        end
    end.
Proof.
  unfold create_or_update_patched_exe, verify_clean_exe, mbind, M_bind,
    path_exists, mret, M_ret, try_except, without_file, unlink.
  destruct (σ !! clean) as [[cdata cr cw|]|] eqn:Hf; [|done..].
  cbn [negb].
  destruct (σ !! patched) as [[pdata pr pw|]|] eqn:Hg; [|done|].
  - rewrite Hg. destruct pw; cbn [writable];
      by destruct (copy2 clean patched _) as [[p|e] σ2].
  - by destruct (copy2 clean patched _) as [[p|e] σ2].
Qed.

(** The same for a clean executable that can be read and an old copy, if
    any, that can be examined. *)
Lemma create_or_update_run_files σ clean patched f :
  σ !! clean = Some f → f ≠ no_access →
  σ !! patched ≠ Some no_access →
  create_or_update_patched_exe clean patched σ
  = match copy2 clean patched (without_file patched σ) with
    | (Returned _, σ2) => (Returned (Done patched), σ2)
    | (Raised _, σ2) =>
        (Returned (Failed "Failed to create patched exe"), σ2)
    end.
Proof.
  intros Hf Hfile Hold. rewrite create_or_update_run, Hf.
  destruct f as [data r w|]; [|done].
  by destruct (σ !! patched) as [[pdata pr pw|]|].
Qed.

Lemma writable_file f : writable f = true → f ≠ no_access.
Proof. by destruct f. Qed.

Lemma readable_file f : readable f = true → f ≠ no_access.
Proof. by destruct f. Qed.

(** X13. [create_or_update_patched_exe] on two different paths. When it
    returns a path, the path is [patched_exe], which then holds a copy of
    the clean executable, contents and permissions, and no other path has
    changed; in particular the clean executable is as it was. It does
    return the path whenever the clean executable can be read and an old
    patched executable, if there is one, can be written. When the clean
    executable is missing it fails with [BackupError] and nothing changed.
    When the clean executable, or the old patched executable next to an
    existing clean one, may not be examined, the error of [exists()], which
    is called outside the [try] blocks, leaves the method as it is, not as
    a [BackupError], again with nothing changed. Nothing is stated about
    the file system after a copy that failed. *)
Theorem create_or_update_patched_exe_copies (σ : gmap string file)
    (clean patched : string) :
  clean ≠ patched →
  (∀ r σ',
     create_or_update_patched_exe clean patched σ = (Returned (Done r), σ') →
     r = patched
     ∧ (∃ f, σ !! clean = Some f ∧ readable f = true
             ∧ σ' !! patched = Some f)
     ∧ ∀ p, p ≠ patched → σ' !! p = σ !! p)
  ∧ (σ !! clean = None →
     create_or_update_patched_exe clean patched σ
     = (Returned (Failed "Original game executable not found"), σ))
  ∧ (∀ f, σ !! clean = Some f → readable f = true →
          (∀ g, σ !! patched = Some g → writable g = true) →
          ∃ σ', create_or_update_patched_exe clean patched σ
                = (Returned (Done patched), σ'))
  ∧ (σ !! clean = Some no_access
     ∨ (is_Some (σ !! clean) ∧ σ !! patched = Some no_access) →
     create_or_update_patched_exe clean patched σ = (Raised OSError, σ)).
Proof.
  intros Hne.
  assert (Hkeep : ∀ p, p ≠ patched →
            without_file patched σ !! p = σ !! p)
    by (intros p Hp; by apply without_file_lookup).
  assert (Hcopy : ∀ f, σ !! clean = Some f → readable f = true →
            copy2 clean patched (without_file patched σ)
            = match without_file patched σ !! patched with
              | Some g =>
                  if writable g
                  then (Returned patched,
                        <[patched := f]> (without_file patched σ))
                  else (Raised OSError, without_file patched σ)
              | None => (Returned patched,
                         <[patched := f]> (without_file patched σ))
              end).
  { intros f Hf Hr. unfold copy2. rewrite (Hkeep clean Hne), Hf.
    rewrite bool_decide_eq_false_2 by done. by rewrite Hr. }
  split; [|split; [|split]].
  - intros r σ' Hrun. rewrite create_or_update_run in Hrun.
    destruct (σ !! clean) as [[cdata cr cw|]|] eqn:Hf; [|done..].
    assert (Hr : cr = true).
    { destruct cr; [done|]. unfold copy2 in Hrun.
      rewrite (Hkeep clean Hne), Hf in Hrun.
      rewrite bool_decide_eq_false_2 in Hrun by done.
      cbn [readable negb] in Hrun.
      by destruct (σ !! patched) as [[pdata pr pw|]|]. }
    subst cr.
    assert (Hrun' :
      match copy2 clean patched (without_file patched σ) with
      | (Returned _, σ2) => (Returned (Done patched), σ2)
      | (Raised _, σ2) =>
          (Returned (Failed "Failed to create patched exe"), σ2)
      end = (Returned (Done r), σ'))
      by (by destruct (σ !! patched) as [[pdata pr pw|]|]).
    clear Hrun. rewrite (Hcopy _ eq_refl eq_refl) in Hrun'.
    assert (Hins : r = patched
                   ∧ σ' = <[patched := mk_file cdata true cw]>
                            (without_file patched σ)).
    { destruct (without_file patched σ !! patched) as [g|];
        [destruct (writable g)|]; try done;
        by injection Hrun' as <- <-. }
    destruct Hins as [-> ->]. split; [done|]. split.
    + exists (mk_file cdata true cw). by rewrite lookup_insert_eq.
    + intros p Hp. rewrite lookup_insert_ne by done. by apply Hkeep.
  - intros Hf. by rewrite create_or_update_run, Hf.
  - intros f Hf Hr Hold.
    rewrite (create_or_update_run_files σ clean patched f Hf);
      [|by apply readable_file
       |intros Hna; by specialize (Hold _ Hna)].
    rewrite (Hcopy f Hf Hr).
    destruct (without_file_at patched σ) as [->|(_ & g & Hg & Hw)];
      [by eexists|].
    specialize (Hold g Hg). congruence.
  - intros Hbad. rewrite create_or_update_run.
    destruct Hbad as [->|[[f Hf] Hg]]; [done|].
    rewrite Hf, Hg. by destruct f.
Qed.

Lemma create_or_update_patched_exe_copies_witness :
  (∃ σ', create_or_update_patched_exe "game.exe" "patched.exe"
           (one_file clean_image)
         = (Returned (Done "patched.exe"%string), σ'))
  ∧ create_or_update_patched_exe "game.exe" "patched.exe"
      ({[ "game.exe"%string := no_access ]})
    = (Raised OSError, {[ "game.exe"%string := no_access ]}).
Proof.
  split.
  - destruct (create_or_update_patched_exe_copies (one_file clean_image)
                "game.exe" "patched.exe" ltac:(done))
      as (_ & _ & Hdone & _).
    apply (Hdone (mk_file clean_image true true)); [reflexivity..|].
    intros g Hg. discriminate Hg.
  - destruct (create_or_update_patched_exe_copies
                ({[ "game.exe"%string := no_access ]})
                "game.exe" "patched.exe" ltac:(done))
      as (_ & _ & _ & Hbad).
    apply Hbad. left. reflexivity.
Defined.

(** X14. The two paths must differ: called with the clean executable as
    its own patched copy, [create_or_update_patched_exe] deletes the file
    (when it can be deleted) and then fails to copy it. *)
Theorem create_or_update_same_path (σ : gmap string file) (path : string)
    (f : file) :
  σ !! path = Some f → writable f = true →
  create_or_update_patched_exe path path σ
  = (Returned (Failed "Failed to create patched exe"), delete path σ).
Proof.
  intros Hf Hw.
  rewrite (create_or_update_run_files σ path path f Hf);
    [|by apply writable_file
     |rewrite Hf; intros [= ->]; done].
  unfold without_file, copy2. rewrite Hf, Hw.
  by rewrite lookup_delete_eq.
Qed.

Lemma create_or_update_same_path_witness :
  create_or_update_patched_exe "game.exe" "game.exe" (one_file clean_image)
  = (Returned (Failed "Failed to create patched exe"),
     delete "game.exe"%string (one_file clean_image)).
Proof.
  apply (create_or_update_same_path _ _ (mk_file clean_image true true));
    reflexivity.
Defined.

Lemma patch_executable_state σ path x :
  ∃ o σ', patch_executable path x σ = (o, σ')
          ∧ (σ' = σ ∨ ∃ B, σ' = <[path := mk_file B true true]> σ).
Proof.
  destruct (σ !! path) as [f|] eqn:Hf;
    [|eexists _, _; split;
      [apply patch_executable_unreadable; by left|by left]].
  destruct (readable f) eqn:Hr;
    [|eexists _, _; split;
      [apply patch_executable_unreadable; eauto|by left]].
  rewrite (patch_executable_readable σ path f) by done.
  destruct (create_raid_patches x) as [patches|e];
    [|eexists _, _; split; [done|by left]].
  destruct (apply_patches _ _ _) as [[patched res]|e];
    [|eexists _, _; split; [done|by left]].
  destruct (success res); [|eexists _, _; split; [done|by left]].
  destruct (writable f); eexists _, _; (split; [done|]); [right|left];
    eauto.
Qed.

(** X15. Preparing again undoes a patch. After a successful
    [create_or_update_patched_exe] from a writable clean executable and any
    call of [patch_executable] on the copy, whatever its parameter and its
    outcome, a second [create_or_update_patched_exe] succeeds and gives
    back exactly the file system the first one left: the next patch starts
    from the clean bytes, not from the patched ones. *)
Theorem prepare_again_resets (σ σ1 σ2 : gmap string file)
    (clean patched : string) (f : file) (raid_index : Z)
    (o : outcome results) :
  clean ≠ patched → σ !! clean = Some f → writable f = true →
  create_or_update_patched_exe clean patched σ
    = (Returned (Done patched), σ1) →
  patch_executable patched raid_index σ1 = (o, σ2) →
  create_or_update_patched_exe clean patched σ2
    = (Returned (Done patched), σ1).
Proof.
  intros Hne Hf Hw Hprep Hpatch.
  pose proof (writable_file f Hw) as Hfile.
  assert (Hσ1 : σ1 = <[patched := f]> σ ∧ readable f = true).
  { assert (Hold : σ !! patched ≠ Some no_access).
    { intros Hna. rewrite create_or_update_run, Hf, Hna in Hprep.
      by destruct f. }
    rewrite (create_or_update_run_files σ clean patched f Hf Hfile Hold)
      in Hprep.
    unfold copy2 in Hprep.
    rewrite (without_file_lookup patched σ clean Hne), Hf in Hprep.
    rewrite bool_decide_eq_false_2 in Hprep by done.
    destruct (readable f); [|done]. cbn [negb] in Hprep.
    unfold without_file in Hprep.
    destruct (σ !! patched) as [g|] eqn:Hg.
    - destruct (writable g) eqn:Hwg.
      + rewrite lookup_delete_eq in Hprep. injection Hprep as <-.
        by rewrite insert_delete_eq.
      + by rewrite Hg, Hwg in Hprep.
    - rewrite Hg in Hprep. by injection Hprep as <-. }
  destruct Hσ1 as [-> Hr].
  assert (Hσ2 : ∃ g, σ2 = <[patched := g]> σ ∧ writable g = true).
  { destruct (patch_executable_state (<[patched := f]> σ) patched raid_index)
      as (o' & σ' & Hrun & Hstate).
    rewrite Hpatch in Hrun. injection Hrun as _ <-.
    destruct Hstate as [->|[B ->]]; [by exists f|].
    exists (mk_file B true true). by rewrite insert_insert_eq. }
  destruct Hσ2 as (g & -> & Hwg).
  rewrite (create_or_update_run_files _ clean patched f);
    [|by rewrite lookup_insert_ne|done
     |rewrite lookup_insert_eq; intros [= ->]; done].
  unfold without_file, copy2.
  rewrite lookup_insert_eq, Hwg.
  rewrite lookup_delete_ne by done. rewrite lookup_insert_ne by done.
  rewrite Hf, bool_decide_eq_false_2 by done. rewrite Hr. cbn [negb].
  rewrite lookup_delete_eq.
  by rewrite insert_delete_eq, insert_insert_eq.
Qed.

Lemma prepare_again_resets_witness :
  create_or_update_patched_exe "game.exe" "patched.exe"
    (snd (patch_executable "patched.exe" 5
            (<["patched.exe"%string := mk_file clean_image true true]>
               (one_file clean_image))))
  = (Returned (Done "patched.exe"%string),
     <["patched.exe"%string := mk_file clean_image true true]>
       (one_file clean_image)).
Proof.
  apply (prepare_again_resets (one_file clean_image) _ _ "game.exe"
           "patched.exe" (mk_file clean_image true true) 5
           (fst (patch_executable "patched.exe" 5
                   (<["patched.exe"%string := mk_file clean_image true true]>
                      (one_file clean_image)))));
    [done|reflexivity|reflexivity|vm_compute; reflexivity
    |apply surjective_pairing].
Defined.

(** ** Cleaning up *)

Lemma unlink_run path σ :
  unlink path σ
  = match σ !! path with
    | Some g => if writable g then (Returned tt, delete path σ)
                else (Raised OSError, σ)
    | None => (Raised OSError, σ)
    end.
Proof. done. Qed.

(** The loop over the shortcuts returns; it counts one removal or records
    one failure for each path, and only deletes listed paths. *)
Lemma remove_shortcuts_run path_name shortcuts :
  ∀ res σ, ∃ failures σ',
    remove_shortcuts path_name shortcuts res σ
    = (Returned (mk_cleanup (patched_exe_removed res)
                   (shortcuts_removed res + Z.of_nat (length shortcuts)
                    - Z.of_nat (length failures))%Z
                   (cleanup_errors res ++ failures)), σ')
    ∧ length failures ≤ length shortcuts
    ∧ (∀ p, σ' !! p = None ∨ σ' !! p = σ !! p)
    ∧ (∀ p, p ∉ shortcuts → σ' !! p = σ !! p)
    ∧ (failures = [] → ∀ p, p ∈ shortcuts → σ' !! p = None).
Proof.
  induction shortcuts as [|shortcut rest IH]; intros res σ.
  - exists [], σ. simpl. unfold mret, M_ret.
    rewrite app_nil_r, Z.add_0_r, Z.sub_0_r. destruct res.
    split; [done|]. split; [done|]. split; [by right|]. split; [done|].
    intros _ p Hp. by apply elem_of_nil in Hp.
  - cbn [remove_shortcuts]. unfold mbind, M_bind, try_except, mret, M_ret.
    rewrite unlink_run.
    destruct (σ !! shortcut) as [g|] eqn:Hg;
      [destruct (writable g) eqn:Hw|].
    + destruct (IH (mk_cleanup (patched_exe_removed res)
                      (shortcuts_removed res + 1)%Z (cleanup_errors res))
                   (delete shortcut σ))
        as (failures & σ' & -> & Hlen & Hdel & Hframe & Hall).
      exists failures, σ'. cbn [patched_exe_removed shortcuts_removed
                                cleanup_errors length].
      split; [do 3 f_equal; lia|]. split; [lia|]. split; [|split].
      * intros p. destruct (Hdel p) as [?|Hp]; [by left|].
        destruct (decide (p = shortcut)) as [->|Hne].
        -- left. by rewrite Hp, lookup_delete_eq.
        -- right. by rewrite Hp, lookup_delete_ne.
      * intros p Hp. apply not_elem_of_cons in Hp as [Hne Hp].
        by rewrite Hframe, lookup_delete_ne.
      * intros Hnil p Hp. apply elem_of_cons in Hp as [->|Hp];
          [|by apply Hall].
        destruct (Hdel shortcut) as [?|Heq]; [done|].
        by rewrite Heq, lookup_delete_eq.
    + destruct (IH (mk_cleanup (patched_exe_removed res)
                      (shortcuts_removed res)
                      (cleanup_errors res ++
                         [("Failed to remove shortcut "
                           +:+ path_name shortcut)%string])) σ)
        as (failures & σ' & -> & Hlen & Hdel & Hframe & Hall).
      eexists (_ :: failures), σ'.
      cbn [patched_exe_removed shortcuts_removed cleanup_errors length].
      split; [rewrite <- app_assoc; do 3 f_equal; lia|]. split; [lia|].
      split; [done|]. split; [|done].
      intros p Hp. apply not_elem_of_cons in Hp as [_ Hp]. by apply Hframe.
    + destruct (IH (mk_cleanup (patched_exe_removed res)
                      (shortcuts_removed res)
                      (cleanup_errors res ++
                         [("Failed to remove shortcut "
                           +:+ path_name shortcut)%string])) σ)
        as (failures & σ' & -> & Hlen & Hdel & Hframe & Hall).
      eexists (_ :: failures), σ'.
      cbn [patched_exe_removed shortcuts_removed cleanup_errors length].
      split; [rewrite <- app_assoc; do 3 f_equal; lia|]. split; [lia|].
      split; [done|]. split; [|done].
      intros p Hp. apply not_elem_of_cons in Hp as [_ Hp]. by apply Hframe.
Qed.

(** X16. [cleanup_all] calls [exists()] on the patched executable before
    its first [try]: when that path may not be examined, the error leaves
    the method, with nothing deleted. In every other case [cleanup_all]
    returns and only deletes: every path is afterwards either absent or as
    it was. It reports the patched executable as removed exactly when the
    file was there and could be deleted. When the listing of the shortcuts succeeds, the number of
    shortcuts removed is at most the number listed, paths that are neither
    the patched executable nor listed are untouched, and an empty error
    list means that the patched executable and every listed shortcut are
    gone and that the count equals the number listed. When the listing
    fails, no shortcut is removed and the error list is not empty. *)
Theorem cleanup_all_only_deletes
    (glob : string → gmap string file → outcome (list string))
    (path_name : string → string) (patched game_root : string)
    (σ : gmap string file) :
  (σ !! patched = Some no_access →
   cleanup_all glob path_name patched game_root σ = (Raised OSError, σ))
  ∧ (σ !! patched ≠ Some no_access →
  ∃ res σ',
    cleanup_all glob path_name patched game_root σ = (Returned res, σ')
    ∧ (∀ p, σ' !! p = None ∨ σ' !! p = σ !! p)
    ∧ (patched_exe_removed res = true
       ↔ ∃ g, σ !! patched = Some g ∧ writable g = true)
    ∧ (∀ shortcuts,
         glob game_root (without_file patched σ) = Returned shortcuts →
         (0 ≤ shortcuts_removed res ≤ Z.of_nat (length shortcuts))%Z
         ∧ (∀ p, p ≠ patched → p ∉ shortcuts → σ' !! p = σ !! p)
         ∧ (cleanup_errors res = [] →
            shortcuts_removed res = Z.of_nat (length shortcuts)
            ∧ σ' !! patched = None
            ∧ ∀ p, p ∈ shortcuts → σ' !! p = None))
    ∧ (∀ e, glob game_root (without_file patched σ) = Raised e →
         shortcuts_removed res = 0%Z ∧ σ' = without_file patched σ
         ∧ cleanup_errors res ≠ [])).
Proof.
  split.
  { intros Hna. unfold cleanup_all, mbind, M_bind, path_exists.
    by rewrite Hna. }
  intros Hold.
  set (exe_res :=
         match σ !! patched with
         | Some g => if writable g then mk_cleanup true 0 []
                     else mk_cleanup false 0
                            ["Failed to remove patched exe"%string]
         | None => mk_cleanup false 0 []
         end).
  assert (Hstep :
    cleanup_all glob path_name patched game_root σ
    = match glob game_root (without_file patched σ) with
      | Returned shortcuts =>
          remove_shortcuts path_name shortcuts exe_res
            (without_file patched σ)
      | Raised _ =>
          (Returned (mk_cleanup (patched_exe_removed exe_res)
                       (shortcuts_removed exe_res)
                       (cleanup_errors exe_res ++
                          ["Error scanning for shortcuts in game folder"
                           %string])), without_file patched σ)
      end).
  { unfold cleanup_all, mbind, M_bind, try_except, path_exists, mret, M_ret,
      without_file, exe_res.
    destruct (σ !! patched) as [[pdata pr pw|]|] eqn:Hg; [|done|].
    - rewrite unlink_run, Hg. cbn [writable].
      destruct pw;
        (destruct (glob game_root _) as [l|e]; [|done]);
        match goal with
        | |- context [remove_shortcuts path_name l ?r ?s] =>
            destruct (remove_shortcuts_run path_name l r s)
              as (fl & σ' & Heq & _); by rewrite Heq
        end.
    - destruct (glob game_root _) as [l|e]; [|done].
      match goal with
      | |- context [remove_shortcuts path_name l ?r ?s] =>
          destruct (remove_shortcuts_run path_name l r s)
            as (fl & σ' & Heq & _); by rewrite Heq
      end. }
  assert (Hmid : ∀ p, without_file patched σ !! p = None
                      ∨ without_file patched σ !! p = σ !! p).
  { intros p. destruct (decide (p = patched)) as [->|Hne].
    - destruct (without_file_at patched σ) as [?|[-> _]]; [by left|by right].
    - right. by apply without_file_lookup. }
  assert (Hexe : patched_exe_removed exe_res = true
                 ↔ ∃ g, σ !! patched = Some g ∧ writable g = true).
  { unfold exe_res. destruct (σ !! patched) as [g|]; simpl.
    - destruct (writable g) eqn:Hw; simpl; split; try done; eauto.
      intros (g' & [= <-] & Hw'). congruence.
    - split; [done|]. by intros (g & Hg & _). }
  assert (Hexe0 : shortcuts_removed exe_res = 0%Z).
  { unfold exe_res. destruct (σ !! patched) as [g|]; [|done].
    by destruct (writable g). }
  assert (Hclean : cleanup_errors exe_res = [] →
                   without_file patched σ !! patched = None).
  { unfold exe_res, without_file.
    destruct (σ !! patched) as [g|] eqn:Hg; [|done].
    destruct (writable g); [intros _; by rewrite lookup_delete_eq|done]. }
  rewrite Hstep.
  destruct (glob game_root (without_file patched σ)) as [l|e] eqn:Hglob.
  - destruct (remove_shortcuts_run path_name l exe_res
                (without_file patched σ))
      as (fl & σ' & -> & Hlen & Hdel & Hframe & Hall).
    eexists _, σ'. split; [done|]. cbn [patched_exe_removed
      shortcuts_removed cleanup_errors]. split; [|split; [done|split]].
    + intros p. destruct (Hdel p) as [?|Hp]; [by left|].
      rewrite Hp. apply Hmid.
    + intros l' [= <-]. rewrite Hexe0. split; [lia|]. split.
      * intros p Hp Hnl. rewrite Hframe by done.
        by apply without_file_lookup.
      * intros Hnil. apply app_eq_nil in Hnil as [Hnil ->].
        split; [simpl; lia|]. split; [|by apply Hall].
        destruct (Hdel patched) as [?|Hp]; [done|].
        rewrite Hp. by apply Hclean.
    + intros e' [=].
  - eexists _, _. split; [done|]. cbn [patched_exe_removed
      shortcuts_removed cleanup_errors]. split; [done|].
    split; [done|]. split; [intros l [=]|].
    intros e' _. split; [done|]. split; [done|].
    intros Hnil. by apply app_eq_nil in Hnil as [_ ?].
Qed.

Lemma cleanup_all_only_deletes_witness :
  ∃ res σ',
    cleanup_all (λ _ _, Returned ["DBFZ Raid 5.lnk"%string]) id
      "patched.exe" "root"
      (<["DBFZ Raid 5.lnk"%string := mk_file [] true true]>
         (one_file clean_image)) = (Returned res, σ')
    ∧ σ' !! "game.exe"%string = Some (mk_file clean_image true true)
    ∧ patched_exe_removed res = false.
Proof.
  destruct (cleanup_all_only_deletes
              (λ _ _, Returned ["DBFZ Raid 5.lnk"%string]) id
              "patched.exe" "root"
              (<["DBFZ Raid 5.lnk"%string := mk_file [] true true]>
                 (one_file clean_image)))
    as [_ Hrun].
  destruct Hrun as (res & σ' & Hrun & _ & Hexe & Hlist & _); [done|].
  exists res, σ'. split; [exact Hrun|].
  destruct (Hlist _ eq_refl) as (_ & Hframe & _). split.
  - rewrite Hframe; [reflexivity|done|].
    intros Hin. apply list_elem_of_singleton in Hin. discriminate Hin.
  - destruct (patched_exe_removed res); [|done].
    destruct (proj1 Hexe eq_refl) as (g & Hg & _). discriminate Hg.
Defined.

(** ** From the clean executable to a verified patch *)

(** X17. Serialise, embed, decode. Wherever the [get_raid] replacement
    that [create_raid_patches] builds for a parameter of [[0, 2^32)] sits
    in a buffer, the four bytes after B8 decode back to the parameter, and
    the loop body of the detector returns the parameter when it is one of
    1..38 and falls through otherwise. *)
Theorem embedded_parameter_decodes (raid_index : Z)
    (raid_bytes B : list byte) (i : nat) :
  to_bytes4_little raid_index = Returned raid_bytes →
  occurs_at (get_replacement raid_bytes) B i →
  from_bytes_little (slice B (i + 1) (i + 5)) = raid_index
  ∧ detect_at B i
    = Returned (if ((1 <=? raid_index) && (raid_index <=? 38))%Z
                then Some raid_index else None).
Proof.
  intros Hser Hocc.
  destruct (to_bytes4_little_returned _ _ Hser) as (_ & Hlen & Hback).
  destruct (detect_at_site _ _ _ Hlen Hocc) as [_ Hat].
  rewrite Hback in Hat. split; [|done].
  destruct raid_bytes as [|a [|b [|c [|d [|? ?]]]]]; try done.
  rewrite (slice_four B i a b c d); [done|..].
  - by apply (Hocc 1).
  - by apply (Hocc 2).
  - by apply (Hocc 3).
  - by apply (Hocc 4).
Qed.

Lemma embedded_parameter_decodes_witness :
  from_bytes_little (slice [x00; xb8; x2c; x01; x00; x00; x90] 2 6) = 300%Z
  ∧ detect_at [x00; xb8; x2c; x01; x00; x00; x90] 1 = Returned None.
Proof.
  apply (embedded_parameter_decodes 300 [x2c; x01; x00; x00]
           [x00; xb8; x2c; x01; x00; x00; x90] 1); [reflexivity|].
  intros [|[|[|[|[|[|k]]]]]] b Hk; simpl in Hk; try discriminate Hk;
    by injection Hk as <-.
Defined.

(** X19. The workflow of preparing and patching. From a clean executable
    that can be read and written, with no undeletable old copy in the way,
    [create_or_update_patched_exe] followed by [patch_executable] on the
    copy always returns a result. The clean executable is untouched. The
    result is a success exactly when the clean executable holds all three
    signatures; then [verify_patch] confirms the parameter on the copy.
    Otherwise the copy is left identical to the clean executable. *)
Theorem prepare_then_patch (σ : gmap string file) (clean patched : string)
    (f : file) (raid_index : Z) :
  clean ≠ patched →
  σ !! clean = Some f → readable f = true → writable f = true →
  (∀ g, σ !! patched = Some g → writable g = true) →
  (0 ≤ raid_index < 2 ^ 32)%Z →
  ∃ σ1 σ2 res,
    create_or_update_patched_exe clean patched σ
      = (Returned (Done patched), σ1)
    ∧ patch_executable patched raid_index σ1 = (Returned res, σ2)
    ∧ σ2 !! clean = Some f
    ∧ (success res = true
       ↔ signature_in (content f) get_pattern
         ∧ signature_in (content f) set_pattern
         ∧ signature_in (content f) status_pattern)
    ∧ (success res = true →
       verify_patch patched raid_index σ2 = (Returned true, σ2))
    ∧ (success res = false → σ2 !! patched = Some f).
Proof.
  intros Hne Hf Hr Hw Hold Hx.
  assert (Hprep : create_or_update_patched_exe clean patched σ
                  = (Returned (Done patched), <[patched := f]> σ)).
  { rewrite (create_or_update_run_files σ clean patched f Hf);
      [|by apply writable_file
       |intros Hna; by specialize (Hold _ Hna)].
    unfold copy2.
    rewrite (without_file_lookup patched σ clean Hne), Hf.
    rewrite bool_decide_eq_false_2 by done. rewrite Hr. cbn [negb].
    unfold without_file. destruct (σ !! patched) as [g|] eqn:Hg.
    - rewrite (Hold g eq_refl), lookup_delete_eq.
      by rewrite insert_delete_eq.
    - by rewrite Hg. }
  set (σ1 := <[patched := f]> σ).
  assert (Hf1 : σ1 !! patched = Some f) by apply lookup_insert_eq.
  pose proof (to_bytes4_little_in_range _ Hx) as Hser.
  destruct (to_bytes4_little_returned _ _ Hser) as (_ & Hlen & _).
  destruct (patch_executable_run σ1 patched f raid_index _ Hf1 Hr Hser)
    as (o1 & o2 & o3 & B1 & B2 & B3 & Hthree & Hrun).
  destruct (three_patches_leftmost _ _ _ _ _ _ _ _ Hlen Hthree)
    as (L1 & L2 & L3).
  rewrite Hw in Hrun.
  exists σ1.
  exists (if success (three_results o1 o2 o3)
          then <[patched := mk_file B3 true true]> σ1 else σ1).
  exists (three_results o1 o2 o3).
  split; [done|]. split; [by destruct (success _)|].
  split; [|split; [|split]].
  - destruct (success _); unfold σ1;
      rewrite ?lookup_insert_ne by done; done.
  - rewrite three_results_success.
    by rewrite (leftmost_match_found _ _ _ L1),
      (leftmost_match_found _ _ _ L2), (leftmost_match_found _ _ _ L3).
  - intros Hs. rewrite Hs in Hrun |- *.
    destruct (patch_executable_leaves_site _ _ _ _ _ Hrun Hs)
      as (rb & i1 & F & Hser' & _ & HF & Hsite).
    by eapply verify_patch_at_site.
  - intros Hs. by rewrite Hs.
Qed.

Lemma prepare_then_patch_witness :
  ∃ σ1 σ2 res,
    create_or_update_patched_exe "game.exe" "patched.exe"
      (one_file stale_image) = (Returned (Done "patched.exe"%string), σ1)
    ∧ patch_executable "patched.exe" 5 σ1 = (Returned res, σ2)
    ∧ σ2 !! "game.exe"%string = Some (mk_file stale_image true true)
    ∧ (success res = true
       ↔ signature_in stale_image get_pattern
         ∧ signature_in stale_image set_pattern
         ∧ signature_in stale_image status_pattern)
    ∧ (success res = true →
       verify_patch "patched.exe" 5 σ2 = (Returned true, σ2))
    ∧ (success res = false →
       σ2 !! "patched.exe"%string = Some (mk_file stale_image true true)).
Proof.
  apply (prepare_then_patch (one_file stale_image) "game.exe" "patched.exe"
           (mk_file stale_image true true) 5);
    [done|reflexivity|reflexivity|reflexivity| |lia].
  intros g Hg. discriminate Hg.
Defined.

(** ** Patching a patched file again *)

(** A window that matches after a replacement matched before it and does
    not touch the replaced bytes, when no window of the pattern fits
    between the first [a] and the last [c] bytes of the replacement, which
    the pattern does not accept. *)
Lemma slice_assign_new_matches B toks2 R i a c :
  i + length R ≤ length B →
  1 ≤ a → 1 ≤ c → a + c ≤ length R →
  length R < a + c + length toks2 →
  (∀ k b, R !! k = Some b → k < a ∨ length R - c ≤ k → avoids toks2 b) →
  ∀ j, matches_at (slice_assign B i (i + length R) R) toks2 j →
       matches_at B toks2 j
       ∧ (j + length toks2 ≤ i ∨ i + length R ≤ j).
Proof.
  intros Hi Ha Hc Hac Hfit Hguard j Hm2.
  assert (HiB : i ≤ length B) by lia.
  destruct (decide (j + length toks2 ≤ i ∨ i + length R ≤ j))
    as [Hout|Hin].
  - split; [|done].
    apply (matches_at_ext B (slice_assign B i (i + length R) R)); [|done].
    intros k Hk. destruct Hout.
    + apply slice_assign_lookup_before; [done|lia].
    + apply slice_assign_lookup_after; [done|lia].
  - exfalso.
    set (g := if decide (j < i + a) then i `max` j
              else j `max` (i + length R - c)).
    assert (Hg : j ≤ g < j + length toks2 ∧ i ≤ g < i + length R
                 ∧ (g - i < a ∨ length R - c ≤ g - i)).
    { unfold g. destruct (decide (j < i + a)); lia. }
    destruct Hg as (Hgw & Hgr & Hgg).
    destruct (lookup_lt_is_Some_2 R (g - i)) as [b Hb]; [lia|].
    apply (window_misses_avoided _ _ _ g b Hm2); [by eapply Hguard| |done].
    replace g with (i + (g - i)) by lia.
    by rewrite slice_assign_lookup_new by lia.
Qed.

Lemma replace_pattern_new_matches B P R o B' toks2 a c :
  Forall well_formed_matcher (split_space P) →
  length R ≤ length (split_space P) →
  1 ≤ a → 1 ≤ c → a + c ≤ length R →
  length R < a + c + length toks2 →
  (∀ k b, R !! k = Some b → k < a ∨ length R - c ≤ k → avoids toks2 b) →
  replace_pattern B P R = (Returned o, B') →
  ∀ j, matches_at B' toks2 j →
       matches_at B toks2 j
       ∧ ∀ i, o = Z.of_nat i → j + length toks2 ≤ i ∨ i + length R ≤ j.
Proof.
  intros Hwf HR Ha Hc Hac Hfit Hguard Hrun j Hm.
  destruct (replace_pattern_matchers B P R Hwf)
    as [(Hrun' & _)|(i & Hrun' & Hi & _)];
    rewrite Hrun in Hrun'.
  - replace B' with B in Hm by congruence. split; [done|].
    intros i Ho. assert (o = (-1)%Z) by congruence. lia.
  - replace B' with (slice_assign B i (i + length R) R) in Hm by congruence.
    destruct (slice_assign_new_matches B toks2 R i a c
                ltac:(lia) Ha Hc Hac Hfit Hguard j Hm) as [HmB Hout].
    split; [done|]. intros i' Ho.
    assert (i' = i) as -> by (apply Nat2Z.inj; congruence). done.
Qed.

Lemma get_pattern_avoids_sites :
  avoids (split_space get_pattern) x41 ∧ avoids (split_space get_pattern) xc7
  ∧ avoids (split_space get_pattern) x40
  ∧ avoids (split_space get_pattern) x04
  ∧ avoids (split_space get_pattern) x39
  ∧ avoids (split_space get_pattern) xc0.
Proof. unfold get_pattern. simpl. repeat split; avoids_literal. Qed.

(** After a run, a window that matches the [get_raid] signature matched it
    before the run and lies clear of the bytes written for [get_raid]. *)
Lemma three_patches_get_matches raid_bytes B o1 o2 o3 B1 B2 B3 :
  length raid_bytes = 4 →
  three_patches raid_bytes B o1 o2 o3 B1 B2 B3 →
  ∀ j, matches_at B3 (split_space get_pattern) j →
       matches_at B (split_space get_pattern) j
       ∧ ∀ i, o1 = Z.of_nat i → j + 6 ≤ i ∨ i + 6 ≤ j.
Proof.
  intros Hlen (H1 & H2 & H3) j Hm3.
  destruct (replacement_lengths _ Hlen) as (Lg & Ls & Lt & Ng & Ns & Nt).
  destruct get_pattern_avoids as [Gb8 G90].
  destruct get_pattern_avoids_sites as (G41 & Gc7 & G40 & G04 & G39 & Gc0).
  assert (Hm2 : matches_at B2 (split_space get_pattern) j).
  { eapply (replace_pattern_new_matches B2 status_pattern status_replacement
              o3 B3 _ 2 2); try exact H3; try exact Hm3;
      try apply status_pattern_matchers; try lia.
    intros [|[|[|[|k]]]] b Hk _; simpl in Hk; try discriminate Hk;
      by injection Hk as <-. }
  assert (Hm1 : matches_at B1 (split_space get_pattern) j).
  { eapply (replace_pattern_new_matches B1 set_pattern
              (set_replacement raid_bytes) o2 B2 _ 4 3);
      try exact H2; try exact Hm2; try apply set_pattern_matchers; try lia.
    intros k b Hk Hedge.
    destruct raid_bytes as [|b0 [|b1 [|b2 [|b3 [|? ?]]]]]; try done.
    simpl in Hedge.
    destruct k as [|[|[|[|[|[|[|[|[|[|[|k]]]]]]]]]]]; simpl in Hk; try lia;
      try discriminate Hk; by injection Hk as <-. }
  destruct (replace_pattern_new_matches B get_pattern
              (get_replacement raid_bytes) o1 B1
              (split_space get_pattern) 1 1 get_pattern_matchers)
    with (j := j) as [Hm0 Hclear]; try done; try lia.
  { by apply get_replacement_guards. }
  split; [done|]. intros i Hi. specialize (Hclear i Hi). lia.
Qed.

Lemma record_offset_keeps_error name o res msg :
  msg ∈ errors res → msg ∈ errors (record_offset name o res).
Proof.
  unfold record_offset. destruct (o <? 0)%Z; simpl; [|done].
  intros Hin. apply elem_of_app. by left.
Qed.

(** X18. A patched file cannot be patched again in place. When the
    [get_raid] signature occurs at most once in a file and
    [patch_executable] has succeeded on it, a second [patch_executable] on
    the same path, with any parameter of [[0, 2^32)], finds no [get_raid]
    signature: it returns a failed result that lists
    ["get_raid pattern scan failed"] and leaves the file as the first run
    wrote it. *)
Theorem repatch_in_place_fails (σ σ1 : gmap string file) (path : string)
    (f : file) (X Y : Z) (res : results) :
  σ !! path = Some f →
  (∀ i j, matches_at (content f) (split_space get_pattern) i →
          matches_at (content f) (split_space get_pattern) j → i = j) →
  patch_executable path X σ = (Returned res, σ1) → success res = true →
  (0 ≤ Y < 2 ^ 32)%Z →
  ∃ res2,
    patch_executable path Y σ1 = (Returned res2, σ1)
    ∧ success res2 = false
    ∧ "get_raid pattern scan failed"%string ∈ errors res2.
Proof.
  intros Hf Honce Hrun Hs HY.
  destruct (patch_executable_succeeded _ _ _ _ _ Hrun Hs)
    as (f' & rb & o1 & o2 & o3 & B1 & B2 & B3 & Hf' & Hr & Hw & Hser
        & Hthree & (Ho1 & _) & -> & ->).
  rewrite Hf in Hf'. injection Hf' as <-.
  destruct (to_bytes4_little_returned _ _ Hser) as (_ & Hlen & _).
  assert (Hnone : ∀ j, ¬ matches_at B3 (split_space get_pattern) j).
  { intros j Hm.
    destruct (three_patches_get_matches _ _ _ _ _ _ _ _ Hlen Hthree j Hm)
      as [HmB Hclear].
    destruct Hthree as (H1 & _).
    destruct (replace_pattern_matchers (content f) get_pattern
                (get_replacement rb) get_pattern_matchers)
      as [(Hrun' & _)|(i & Hrun' & _ & Hmi & _)]; rewrite H1 in Hrun'.
    - assert (o1 = (-1)%Z) by congruence. lia.
    - assert (Hoi : o1 = Z.of_nat i) by congruence.
      specialize (Hclear i Hoi). specialize (Honce i j Hmi HmB). lia. }
  pose proof (to_bytes4_little_in_range _ HY) as HserY.
  destruct (to_bytes4_little_returned _ _ HserY) as (_ & HlenY & _).
  destruct (patch_executable_run (<[path := mk_file B3 true true]> σ) path
              (mk_file B3 true true) Y _ ltac:(by rewrite lookup_insert_eq)
              eq_refl HserY)
    as (p1 & p2 & p3 & C1 & C2 & C3 & HthreeY & HrunY).
  simpl content in HthreeY.
  destruct (three_patches_leftmost _ _ _ _ _ _ _ _ HlenY HthreeY)
    as ([(-> & _)|(i & _ & Hm & _)] & _); [|by destruct (Hnone i)].
  assert (Hfail : success (three_results (-1) p2 p3) = false).
  { destruct (success (three_results (-1) p2 p3)) eqn:Hs'; [|done].
    apply (proj1 (three_results_success _ _ _)) in Hs'. lia. }
  rewrite Hfail in HrunY. eexists. split; [exact HrunY|].
  split; [done|]. unfold three_results.
  do 2 apply record_offset_keeps_error. unfold record_offset. simpl.
  by apply list_elem_of_singleton.
Qed.

Lemma repatch_in_place_fails_witness :
  ∃ res2,
    patch_executable "game.exe" 6
      (<["game.exe"%string :=
          mk_file [xb8; x05; x00; x00; x00; x90;
                   x41; xc7; x40; x04; x05; x00; x00; x00; x90; x90; x90;
                   xf2; x0f; x11; x4c; x39; xc0; x90; x90; x74; x10]
            true true]> (one_file clean_image))
    = (Returned res2,
       <["game.exe"%string :=
          mk_file [xb8; x05; x00; x00; x00; x90;
                   x41; xc7; x40; x04; x05; x00; x00; x00; x90; x90; x90;
                   xf2; x0f; x11; x4c; x39; xc0; x90; x90; x74; x10]
            true true]> (one_file clean_image))
    ∧ success res2 = false
    ∧ "get_raid pattern scan failed"%string ∈ errors res2.
Proof.
  eapply (repatch_in_place_fails (one_file clean_image) _ "game.exe"
            (mk_file clean_image true true) 5 6);
    [reflexivity| |vm_compute; reflexivity|reflexivity|lia].
  intros i j Hi Hj.
  assert (Hat0 : ∀ k, matches_at clean_image (split_space get_pattern) k →
                      k = 0).
  { intros k Hk.
    pose proof (matches_at_in_bounds _ _ _ (split_space_nonempty _) Hk)
      as Hb. simpl in Hb.
    destruct (Hk 0 "8B"%string eq_refl) as (b & Hb0 & [Hw|Hv]);
      [discriminate Hw|].
    rewrite Nat.add_0_r in Hb0.
    do 22 (destruct k as [|k]; [try done; simpl in Hb0;
                                injection Hb0 as <-; discriminate Hv|]).
    simpl in Hb. lia. }
  by rewrite (Hat0 i Hi), (Hat0 j Hj).
Defined.
